(** * rss2bsky: the feed-to-Bluesky synchronisation run of [main.py]

    A shallow embedding of [src/rss2bsky/main.py] and the properties of
    its cursor store, entry filter, text transformer, media gate, session
    acquisition and main loop.

    Conventions of the embedding
    - a Python [str] is a [string]; every character stands for one code
      point below 256, and [len] is [String.length];
    - a Python [int] is a [Z];
    - a [datetime] is a [Z] (an instant); [datetime.strptime] is a
      function [strptime : string -> string -> option Z] supplied by the
      environment, [None] standing for [ValueError];
    - the network collaborators ([feedparser.parse], [httpx.get],
      [Client.login], [Client.send_post], [Client.send_image]) are
      transitions of an abstract world [W];
    - the file [settings.LAST_POSTED_FILE] is one cell of the state,
      [None] when the file does not exist; the cell holds the characters
      of the file: writing stores the text as it is (the line separator
      of the system is the line feed), reading is in text mode, where a
      carriage return, alone or before a line feed, is read as a line
      feed; errors of the operating system on that file are outside the
      model;
    - an uncaught Python exception ends the run: computations live in a
      monad that carries the state, the events performed so far and
      either a value or the exception. *)

From Stdlib Require Import String Ascii List ZArith NArith Bool Arith Lia Sorted.
Import ListNotations.

Local Open Scope string_scope.
Local Open Scope list_scope.
Local Open Scope Z_scope.

Set Implicit Arguments.

(** ** Python string operations *)

Module PyStr.

Definition len (s : string) : Z := Z.of_nat (String.length s).

(** [s[n:]] for a natural [n]. *)
Fixpoint drop (n : nat) (s : string) : string :=
  match n, s with
  | O, _ => s
  | S _, EmptyString => EmptyString
  | S n', String _ s' => drop n' s'
  end.

(** [s[:n]] for a natural [n]. *)
Fixpoint take (n : nat) (s : string) : string :=
  match n, s with
  | O, _ => EmptyString
  | S _, EmptyString => EmptyString
  | S n', String c s' => String c (take n' s')
  end.

(** [s[:m]] for a Python integer [m]: a negative bound counts from
    the end of the string. *)
Definition slice_to (s : string) (m : Z) : string :=
  if m <? 0
  then take (Z.to_nat (Z.max 0 (len s + m))) s
  else take (Z.to_nat m) s.

(** [c.isspace()] on the code points below 256. *)
Definition isspace (c : ascii) : bool :=
  let n := N_of_ascii c in
  ((9 <=? n) && (n <=? 13) || (28 <=? n) && (n <=? 32)
   || (n =? 133) || (n =? 160))%N.

Fixpoint lstrip (s : string) : string :=
  match s with
  | EmptyString => EmptyString
  | String c s' => if isspace c then lstrip s' else s
  end.

Fixpoint rstrip (s : string) : string :=
  match s with
  | EmptyString => EmptyString
  | String c s' =>
      match rstrip s' with
      | EmptyString => if isspace c then EmptyString else String c EmptyString
      | r => String c r
      end
  end.

(** [s.strip()] *)
Definition strip (s : string) : string := rstrip (lstrip s).

(** [c.lower()] on the code points below 256: the letters A-Z and the
    Latin-1 capitals 0xC0-0xDE (without the multiplication sign 0xD7)
    move up by 32. *)
Definition lower_char (c : ascii) : ascii :=
  let n := N_of_ascii c in
  if ((65 <=? n) && (n <=? 90)
      || (192 <=? n) && (n <=? 222) && negb (n =? 215))%N
  then ascii_of_N (n + 32)
  else c.

(** [s.lower()] *)
Fixpoint lower (s : string) : string :=
  match s with
  | EmptyString => EmptyString
  | String c s' => String (lower_char c) (lower s')
  end.

(** [s.endswith(suffix)] *)
Definition endswith (s suffix : string) : bool :=
  (String.length suffix <=? String.length s)%nat
  && (drop (String.length s - String.length suffix) s =? suffix)%string.

(** [s.endswith((x1, ..., xn))] *)
Definition endswith_any (s : string) (suffixes : list string) : bool :=
  existsb (endswith s) suffixes.

(** [sub in s] *)
Fixpoint contains (sub s : string) : bool :=
  prefix sub s
  || match s with
     | EmptyString => false
     | String _ s' => contains sub s'
     end.

(** The leftmost occurrence of [sep] in [s]: the text before it and
    the text after it. *)
Fixpoint partition (sep s : string) : option (string * string) :=
  if prefix sep s then Some (EmptyString, drop (String.length sep) s)
  else match s with
       | EmptyString => None
       | String c s' =>
           match partition sep s' with
           | Some (a, b) => Some (String c a, b)
           | None => None
           end
       end.

(** [s.split(sep, 1)] for a non-empty [sep]. *)
Definition split1 (s sep : string) : list string :=
  match partition sep s with
  | Some (a, b) => [a; b]
  | None => [s]
  end.

(** Truthiness of a string: [bool(s)]. *)
Definition truthy (s : string) : bool := negb (s =? "")%string.

Definition CR : ascii := "013"%char.
Definition LF : ascii := "010"%char.

(** What reading a file in text mode makes of its characters: a carriage
    return followed by a line feed is read as one line feed, any other
    carriage return as a line feed. *)
Fixpoint universal_newlines (s : string) : string :=
  match s with
  | EmptyString => EmptyString
  | String c s' =>
      if (c =? CR)%char
      then match s' with
           | String c' _ =>
               if (c' =? LF)%char
               then universal_newlines s'
               else String LF (universal_newlines s')
           | EmptyString => String LF EmptyString
           end
      else String c (universal_newlines s')
  end.

(** The string holds a carriage return. *)
Fixpoint has_cr (s : string) : bool :=
  match s with
  | EmptyString => false
  | String c s' => (c =? CR)%char || has_cr s'
  end.

(** Every character is white space. *)
Fixpoint all_space (s : string) : bool :=
  match s with
  | EmptyString => true
  | String c s' => isspace c && all_space s'
  end.

Fixpoint last_char (s : string) : option ascii :=
  match s with
  | EmptyString => None
  | String c EmptyString => Some c
  | String _ s' => last_char s'
  end.

(** No white space at either end. *)
Definition trimmed (s : string) : bool :=
  match s with
  | EmptyString => true
  | String c _ => negb (isspace c)
  end
  && match last_char s with
     | Some c => negb (isspace c)
     | None => true
     end.

End PyStr.

(** ** Data model *)

(** One media candidate: a dictionary whose ["url"] key may be missing. *)
Record Media := { url : option string }.

(** A feed entry as [feedparser] hands it over.  [title], [link],
    [published] and [description] are attributes every entry exposes;
    the two media collections are keys that may be absent. *)
Record Entry := {
  title : string;
  link : string;
  published : string;
  description : string;
  enclosures : option (list Media);
  media_content : option (list Media)
}.

(** [key in entry] and [entry.get(key)] for the two media keys. *)
Definition entry_get (entry : Entry) (key : string) : option (list Media) :=
  if (key =? "enclosures")%string then enclosures entry
  else if (key =? "media_content")%string then media_content entry
  else None.

Definition entry_has (entry : Entry) (key : string) : bool :=
  match entry_get entry key with Some _ => true | None => false end.

(** The [settings] object: the options the run reads.  [SKIP_TAG] and
    [SPLITTER] are read with [settings.get], which gives [None] when the
    option is not configured. *)
Record Settings := {
  FEED_URL : string;
  HANDLE : string;
  PASSWORD : string;
  START_POST_DATE : string;
  LAST_POSTED_FILE : string;
  DATE_FORMAT : string;
  SKIP_TAG : option string;
  SPLITTER : option string
}.

(** [client_utils.TextBuilder]: the segments added so far. *)
Inductive Segment :=
| SegText (s : string)
| SegLink (label target : string).

Definition TextBuilder := list Segment.

Definition tb_text (b : TextBuilder) (s : string) : TextBuilder := b ++ [SegText s].
Definition tb_link (b : TextBuilder) (label target : string) : TextBuilder :=
  b ++ [SegLink label target].

Definition segment_text (g : Segment) : string :=
  match g with
  | SegText s => s
  | SegLink label _ => label
  end.

(** [TextBuilder.build_text()]: the text of the post as it is rendered. *)
Definition build_text (b : TextBuilder) : string :=
  fold_right (fun g acc => segment_text g ++ acc)%string EmptyString b.

(** An [atproto] client; [me] is set by a successful login. *)
Record Client := { me : option string }.

(** The two publish operations of the client. *)
Inductive SendCall :=
| send_post (text : TextBuilder)
| send_image (text : TextBuilder) (image : string) (image_alt : string).

(** An [httpx] response. *)
Record Response := { status_code : Z; content : string }.

(** What [client.login] does: it returns, raises a [RequestException]
    with a message, or raises something else. *)
Inductive LoginResult :=
| LoginOk
| LoginRequestException (msg : string)
| LoginOtherError.

(** Uncaught exceptions. *)
Inductive Exc :=
| ValueError        (* strptime on a string that does not match the format *)
| AttributeError    (* a method called on None *)
| IndexError
| KeyError
| TransportError    (* raised by httpx.get *)
| LoginError        (* raised by login, not a RequestException *)
| PublishError.     (* raised by send_post or send_image *)

(** Result of a computation: a value, an uncaught exception, or a loop
    that used up its fuel. *)
Inductive Res (A : Type) :=
| Ok (a : A)
| Raise (e : Exc)
| NoFuel.

Arguments Ok {A} a.
Arguments Raise {A} e.
Arguments NoFuel {A}.

(** What the run does to the outside, in order.  [EvSend] and [EvSave]
    record the publish call and the write of the cursor file; the entry
    in [EvSend] names the loop iteration that made the call (the call
    itself receives only the client, the message and the image), and
    [returned] tells whether the call came back or raised. *)
Inductive Event :=
| EvPrint (s : string)
| EvSleep (seconds : Z)
| EvLogin (handle password : string)
| EvGet (target : string)
| EvSend (entry : Entry) (client : Client) (call : SendCall) (returned : bool)
| EvSave (text : string).

(** The collaborators: transitions of a world [W]. *)
Record Env (W : Type) := {
  strptime : string -> string -> option Z;
  feedparser_parse : string -> W -> list Entry * W;
  httpx_get : string -> W -> option Response * W;
  client_login : string -> string -> W -> LoginResult * W;
  client_send : Client -> SendCall -> W -> bool * W
}.

(** ** The monad of the run *)

Section Run.

Context {W : Type}.

Record State := { world : W; last_posted : option string }.

Record Out (A : Type) := {
  events : list Event;
  final : State;
  result : Res A
}.

Definition M (A : Type) := State -> Out A.

Definition ret {A} (a : A) : M A :=
  fun s => {| events := []; final := s; result := Ok a |}.

Definition bind {A B} (m : M A) (f : A -> M B) : M B :=
  fun s =>
    let o := m s in
    match result o with
    | Ok a =>
        let o' := f a (final o) in
        {| events := events o ++ events o'; final := final o'; result := result o' |}
    | Raise e => {| events := events o; final := final o; result := Raise e |}
    | NoFuel => {| events := events o; final := final o; result := NoFuel |}
    end.

Definition raise {A} (e : Exc) : M A :=
  fun s => {| events := []; final := s; result := Raise e |}.

Definition out_of_fuel {A} : M A :=
  fun s => {| events := []; final := s; result := NoFuel |}.

Definition emit (ev : Event) : M unit :=
  fun s => {| events := [ev]; final := s; result := Ok tt |}.

Definition lift {A} (r : Res A) : M A :=
  fun s => {| events := []; final := s; result := r |}.

(** A call to a collaborator. *)
Definition call_world {A} (f : W -> A * W) : M A :=
  fun s =>
    let '(a, w) := f (world s) in
    {| events := []; final := {| world := w; last_posted := last_posted s |};
       result := Ok a |}.

(** [open(path, "r").read()] when the file exists: the content, with
    the line ends translated as text mode does. *)
Definition read_file : M (option string) :=
  fun s =>
    {| events := []; final := s;
       result := Ok (option_map PyStr.universal_newlines (last_posted s)) |}.

Definition write_file (text : string) : M unit :=
  fun s =>
    {| events := [EvSave text];
       final := {| world := world s; last_posted := Some text |};
       result := Ok tt |}.

End Run.

Arguments State : clear implicits.
Arguments Out : clear implicits.
Arguments M : clear implicits.

Declare Scope run_scope.
Delimit Scope run_scope with run.
Notation "x <- m ;; k" := (bind m (fun x => k))
  (at level 61, m at next level, right associativity) : run_scope.
Notation "m ;; k" := (bind m (fun _ => k))
  (at level 61, right associativity) : run_scope.

Local Open Scope run_scope.

(** ** The program *)

Section Program.

Context {W : Type}.
Variable env : Env W.
Variable settings : Settings.

Definition print (s : string) : M W unit := emit (EvPrint s).
Definition sleep (seconds : Z) : M W unit := emit (EvSleep seconds).

(** [datetime.strptime(s, settings.DATE_FORMAT)] *)
Definition parse_date (s : string) : Res Z :=
  match strptime env s (DATE_FORMAT settings) with
  | Some t => Ok t
  | None => Raise ValueError
  end.

(** [settings.get(key)] followed by a truth test: an option that is
    configured and not the empty string. *)
Definition configured (o : option string) : option string :=
  match o with
  | Some s => if PyStr.truthy s then Some s else None
  | None => None
  end.

(** [datetime.strptime(s, settings.DATE_FORMAT) if s else None], for
    the start date (lines 106-110) and for the cursor (lines 119-123). *)
Definition optional_date (s : option string) : Res (option Z) :=
  match s with
  | Some s =>
      if PyStr.truthy s
      then match parse_date s with
           | Ok t => Ok (Some t)
           | Raise e => Raise e
           | NoFuel => NoFuel
           end
      else Ok None
  | None => Ok None
  end.

(** Lines 32-36. *)
Definition read_last_posted_date : M W (option string) :=
  file <- read_file ;;
  match file with
  | Some text => ret (Some (PyStr.strip text))
  | None => ret None
  end.

(** Lines 39-41. *)
Definition save_last_posted_date (pub_date : string) : M W unit :=
  write_file pub_date.

(** [xs[1]] *)
Definition item1 (xs : list string) : Res string :=
  match xs with
  | _ :: x :: _ => Ok x
  | _ => Raise IndexError
  end.

(** Lines 46-48: the clean-up of the text by the splitter. *)
Definition cleanup (description : string) : Res string :=
  match configured (SPLITTER settings) with
  | Some splitter =>
      if PyStr.contains splitter description
      then match item1 (PyStr.split1 description splitter) with
           | Ok part => Ok (PyStr.strip part)
           | Raise e => Raise e
           | NoFuel => NoFuel
           end
      else Ok description
  | None => Ok description
  end.

Definition link_text : string := "Read post".

(** Lines 50-53: the cut to [limit - len(link_text)] characters. *)
Definition cut (description : string) (limit : Z) : string :=
  let max_description_length := limit - PyStr.len link_text in
  if PyStr.len description >? max_description_length
  then PyStr.slice_to description max_description_length
  else description.

(** Lines 44-57. *)
Definition truncate_text (description link : string) (limit : Z) : Res TextBuilder :=
  match cleanup description with
  | Ok description =>
      let description := cut description limit in
      Ok (tb_link (tb_text [] (description ++ " ")%string) link_text link)
  | Raise e => Raise e
  | NoFuel => NoFuel
  end.

(** Lines 60-64. *)
Definition download_image (target : string) : M W (option string) :=
  emit (EvGet target) ;;
  r <- call_world (httpx_get env target) ;;
  match r with
  | None => raise TransportError
  | Some response =>
      if status_code response =? 200
      then ret (Some (content response))
      else ret None
  end.

Definition image_suffixes : list string := [".jpg"; ".jpeg"; ".png"; ".gif"].

(** Lines 67-68.  The argument is what the caller obtained with
    [.get("url")], so it may be [None], on which [.lower()] raises. *)
Definition is_image (u : option string) : Res bool :=
  match u with
  | Some u => Ok (PyStr.endswith_any (PyStr.lower u) image_suffixes)
  | None => Raise AttributeError
  end.

(** Lines 71-80.  [entry] only labels the recorded event. *)
Definition post_to_bluesky (entry : Entry) (client : Client)
    (message : TextBuilder) (image : option string) : M W unit :=
  let call :=
    match image with
    | Some bytes =>
        if PyStr.truthy bytes
        then send_image message bytes "Image coming from the Fediverse"
        else send_post message
    | None => send_post message
    end in
  fun s =>
    let '(returned, w) := client_send env client call (world s) in
    {| events := [EvSend entry client call returned];
       final := {| world := w; last_posted := last_posted s |};
       result := if returned then Ok tt else Raise PublishError |}.

(** Lines 86-96: the loop [while client is None], with [fuel] bounding
    the number of iterations.  The body binds [client] to the new
    [Client()] before it calls [login]; the handler of
    [RequestException] ends in [continue], which goes back to the test
    of the loop with that binding in place. *)
Fixpoint while_client_is_None (fuel : nat) (client : option Client)
    : M W (option Client) :=
  match client with
  | Some _ => ret client
  | None =>
      match fuel with
      | O => out_of_fuel
      | S fuel' =>
          let client := {| me := None |} in
          emit (EvLogin (HANDLE settings) (PASSWORD settings)) ;;
          r <- call_world (client_login env (HANDLE settings) (PASSWORD settings)) ;;
          match r with
          | LoginOk =>
              while_client_is_None fuel' (Some {| me := Some (HANDLE settings) |})
          | LoginRequestException msg =>
              (if PyStr.contains "RateLimitExceeded" msg
               then print "Rate Limited" ;; sleep 86400
               else ret tt) ;;
              print msg ;;
              while_client_is_None fuel' (Some client)
          | LoginOtherError => raise LoginError
          end
      end
  end.

(** One turn of the loop of [get_client], started with [client]
    unbound. *)
Definition one_turn : M W (option Client) :=
  emit (EvLogin (HANDLE settings) (PASSWORD settings)) ;;
  r <- call_world (client_login env (HANDLE settings) (PASSWORD settings)) ;;
  match r with
  | LoginOk => ret (Some {| me := Some (HANDLE settings) |})
  | LoginRequestException msg =>
      (if PyStr.contains "RateLimitExceeded" msg
       then print "Rate Limited" ;; sleep 86400
       else ret tt) ;;
      print msg ;;
      ret (Some {| me := None |})
  | LoginOtherError => raise LoginError
  end.

(** Lines 83-97. *)
Definition get_client (fuel : nat) : M W Client :=
  client <- while_client_is_None fuel None ;;
  match client with
  | Some c => ret c
  | None => out_of_fuel
  end.

(** [not bound or pub_date > bound] *)
Definition after (bound : option Z) (pub_date : Z) : bool :=
  match bound with
  | None => true
  | Some b => pub_date >? b
  end.

(** Lines 127-129: the test of the skip tag. *)
Definition skipped (entry : Entry) : bool :=
  match configured (SKIP_TAG settings) with
  | Some skip_tag => PyStr.contains skip_tag (description entry)
  | None => false
  end.

(** Lines 142-144: the key under which the media candidates are read. *)
Definition media_key (entry : Entry) : string :=
  let media_key := "media_content" in
  if entry_has entry "enclosures" then "enclosures" else media_key.

(** Lines 147-152: the choice of the image. *)
Definition select_image (entry : Entry) : M W (option string) :=
  match entry_get entry (media_key entry) with
  | Some (first :: _) =>
      b <- lift (is_image (url first)) ;;
      if b : bool then
        match url first with
        | Some u =>
            print ("downloading image: " ++ u)%string ;;
            download_image u
        | None => raise KeyError
        end
      else ret None
  | _ => ret None
  end.

(** Lines 127-160: the body of the loop, for one entry.  [client] is
    the local variable of [main], handed from one iteration to the
    next. *)
Definition loop_body (fuel : nat) (start_post_date last_posted_date : option Z)
    (entry : Entry) (client : option Client) : M W (option Client) :=
  if skipped entry then ret client
  else
    pub_date <- lift (parse_date (published entry)) ;;
    if after last_posted_date pub_date && after start_post_date pub_date then
      print ("Preparing " ++ link entry ++ " " ++ published entry)%string ;;
      message <- lift (truncate_text (title entry) (link entry) 300) ;;
      image <- select_image entry ;;
      print "posting to bluesky" ;;
      client <- match client with
                | Some c => ret c
                | None => get_client fuel
                end ;;
      post_to_bluesky entry client message image ;;
      save_last_posted_date (published entry) ;;
      print "saved last posted date" ;;
      ret (Some client)
    else ret client.

(** [for entry in entries: body] *)
Fixpoint for_entries (body : Entry -> option Client -> M W (option Client))
    (entries : list Entry) (client : option Client) : M W (option Client) :=
  match entries with
  | [] => ret client
  | entry :: rest =>
      client <- body entry client ;;
      for_entries body rest client
  end.

(** Lines 100-162. *)
Definition main (fuel : nat) : M W unit :=
  let feed_url := FEED_URL settings in
  print ("Fetching " ++ feed_url)%string ;;
  let start_post_date_str := START_POST_DATE settings in
  start_post_date <- lift (optional_date (Some start_post_date_str)) ;;
  let client := None in
  feed <- call_world (feedparser_parse env feed_url) ;;
  last_posted_date_str <- read_last_posted_date ;;
  last_posted_date <- lift (optional_date last_posted_date_str) ;;
  for_entries (loop_body fuel start_post_date last_posted_date) (rev feed) client ;;
  print "all done with work".

End Program.

(** ** Reading a trace *)

(** The publish calls of a trace, in order: the entry each was made for
    and whether the call returned. *)
Definition sends (tr : list Event) : list (Entry * bool) :=
  flat_map (fun ev => match ev with
                      | EvSend e _ _ r => [(e, r)]
                      | _ => []
                      end) tr.

(** The entries published, in order. *)
Definition posted (tr : list Event) : list Entry := map fst (sends tr).

(** The calls themselves. *)
Definition calls (tr : list Event) : list SendCall :=
  flat_map (fun ev => match ev with
                      | EvSend _ _ call _ => [call]
                      | _ => []
                      end) tr.

(** The texts written to the cursor file, in order. *)
Definition saves (tr : list Event) : list string :=
  flat_map (fun ev => match ev with
                      | EvSave text => [text]
                      | _ => []
                      end) tr.

(** The addresses fetched, in order. *)
Definition fetches (tr : list Event) : list string :=
  flat_map (fun ev => match ev with
                      | EvGet target => [target]
                      | _ => []
                      end) tr.

(** The number of login attempts. *)
Definition logins (tr : list Event) : nat :=
  List.length (filter (fun ev => match ev with
                                 | EvLogin _ _ => true
                                 | _ => false
                                 end) tr).

(** An event that is neither a publish call nor a write of the cursor. *)
Definition silent (ev : Event) : Prop :=
  match ev with
  | EvSend _ _ _ _ | EvSave _ => False
  | _ => True
  end.

(** Traces in which a write of the cursor only ever comes right after a
    publish call that returned, and carries the [published] string of
    the entry of that call. *)
Inductive disciplined : list Event -> Prop :=
| disciplined_nil : disciplined []
| disciplined_silent ev tr :
    silent ev -> disciplined tr -> disciplined (ev :: tr)
| disciplined_send e c call r tr :
    disciplined tr -> disciplined (EvSend e c call r :: tr)
| disciplined_save e c call tr :
    disciplined tr ->
    disciplined (EvSend e c call true :: EvSave (published e) :: tr).

Definition text_of (call : SendCall) : TextBuilder :=
  match call with
  | send_post text => text
  | send_image text _ _ => text
  end.



(** The entries whose publish call returned, in order. *)
Definition succeeded (tr : list Event) : list Entry :=
  map fst (filter snd (sends tr)).

(** The clients the publish calls were made with, in order. *)
Definition clients (tr : list Event) : list Client :=
  flat_map (fun ev => match ev with
                      | EvSend _ c _ _ => [c]
                      | _ => []
                      end) tr.

(** The pauses, in order. *)
Definition sleeps (tr : list Event) : list Z :=
  flat_map (fun ev => match ev with
                      | EvSleep seconds => [seconds]
                      | _ => []
                      end) tr.

(** An event that is not a login attempt. *)
Definition login_free (ev : Event) : Prop :=
  match ev with
  | EvLogin _ _ => False
  | _ => True
  end.

(** An event that, when it is a publish call, was made with [c]. *)
Definition sent_with (c : Client) (ev : Event) : Prop :=
  match ev with
  | EvSend _ c' _ _ => c' = c
  | _ => True
  end.

(** A print or a fetch. *)
Definition chatter (ev : Event) : Prop :=
  match ev with
  | EvPrint _ | EvGet _ => True
  | _ => False
  end.

(** The entry with another collection under the key "media_content". *)
Definition set_media_content (e : Entry) (m : option (list Media)) : Entry :=
  {| title := title e; link := link e; published := published e;
     description := description e;
     enclosures := enclosures e; media_content := m |}.

(** The call [post_to_bluesky] makes (lines 73-80). *)
Definition chosen_call (message : TextBuilder) (image : option string)
    : SendCall :=
  match image with
  | Some bytes =>
      if PyStr.truthy bytes
      then send_image message bytes "Image coming from the Fediverse"
      else send_post message
  | None => send_post message
  end.




Section Predicates.

Context {W : Type}.
Variable env : Env W.
Variable settings : Settings.

(** The instant a [published] string stands for. *)
Definition stamp (s : string) : option Z :=
  strptime env s (DATE_FORMAT settings).

(** The entries the loop goes on to publish: not skipped, with a date
    after the cursor and after the start date. *)
Definition passes (start_post_date last_posted_date : option Z)
    (entry : Entry) : bool :=
  negb (skipped settings entry)
  && match stamp (published entry) with
     | Some t => after last_posted_date t && after start_post_date t
     | None => false
     end.

(** [a] was published strictly before [b]. *)
Definition earlier (a b : Entry) : Prop :=
  match stamp (published a), stamp (published b) with
  | Some x, Some y => x < y
  | _, _ => False
  end.

(** A feed in reverse chronological order: every entry is strictly
    later than all the entries listed after it. *)
Definition newest_first (feed : list Entry) : Prop :=
  StronglySorted (fun a b => earlier b a) feed.

(** The first media candidate of the entry, when there is one,
    carries a ["url"]. *)
Definition first_media_has_url (entry : Entry) : Prop :=
  match entry_get entry (media_key entry) with
  | Some (first :: _) => url first <> None
  | _ => True
  end.

(** Nothing raises: the dates of the entries read by the loop parse,
    the first media candidates carry an address, and the collaborators
    answer. *)
Record cooperative (feed : list Entry) : Prop := {
  dates_parse :
    forall e, In e feed -> skipped settings e = false ->
              stamp (published e) <> None;
  media_have_url : forall e, In e feed -> first_media_has_url e;
  get_answers : forall target w, fst (httpx_get env target w) <> None;
  login_answers :
    forall h p w, fst (client_login env h p w) <> LoginOtherError;
  send_returns : forall c call w, fst (client_send env c call w) = true
}.

(** A computation that neither publishes nor writes the cursor. *)
Definition quiet {A} (m : M W A) : Prop :=
  forall s, Forall silent (events (m s))
            /\ last_posted (final (m s)) = last_posted s.

(** A computation that returns. *)
Definition returns {A} (m : M W A) : Prop :=
  forall s, exists a, result (m s) = Ok a.

(** Lines 137-160: what the body does for an entry that passed the
    filters. *)
Definition publish_steps (fuel : nat) (entry : Entry) (client : option Client)
    : M W (option Client) :=
  print ("Preparing " ++ link entry ++ " " ++ published entry)%string ;;
  message <- lift (truncate_text settings (title entry) (link entry) 300) ;;
  image <- select_image env entry ;;
  print "posting to bluesky" ;;
  client <- match client with
            | Some c => ret c
            | None => get_client env settings fuel
            end ;;
  post_to_bluesky env entry client message image ;;
  save_last_posted_date (published entry) ;;
  print "saved last posted date" ;;
  ret (Some client).

(** The three ways the iteration of an entry that passes the filters
    can go: the publish call returns and the cursor is written; the
    publish call raises; something raises before the publish call. *)
Inductive attempt (entry : Entry) (before : State W)
    (o : Out W (option Client)) : Prop :=
| attempt_done pre c call :
    Forall silent pre ->
    events o = pre ++ [EvSend entry c call true;
                       EvSave (published entry);
                       EvPrint "saved last posted date"] ->
    truncate_text settings (title entry) (link entry) 300 = Ok (text_of call) ->
    result o = Ok (Some c) ->
    last_posted (final o) = Some (published entry) ->
    attempt entry before o
| attempt_refused pre c call :
    Forall silent pre ->
    events o = pre ++ [EvSend entry c call false] ->
    truncate_text settings (title entry) (link entry) 300 = Ok (text_of call) ->
    result o = Raise PublishError ->
    last_posted (final o) = last_posted before ->
    attempt entry before o
| attempt_aborted :
    Forall silent (events o) ->
    (forall x, result o <> Ok x) ->
    last_posted (final o) = last_posted before ->
    attempt entry before o.

(** The feed [main] reads, and the state in which its loop starts. *)
Definition fetched (s : State W) : list Entry :=
  fst (feedparser_parse env (FEED_URL settings) (world s)).

Definition at_loop (s : State W) : State W :=
  {| world := snd (feedparser_parse env (FEED_URL settings) (world s));
     last_posted := last_posted s |}.

(** The start date and the cursor as [main] computes them. *)
Definition start_of_run : Res (option Z) :=
  optional_date env settings (Some (START_POST_DATE settings)).

(** What [read_last_posted_date] returns for a content of the file. *)
Definition loaded (file : option string) : option string :=
  option_map (fun text => PyStr.strip (PyStr.universal_newlines text)) file.

Definition cursor_of_run (s : State W) : Res (option Z) :=
  optional_date env settings (loaded (last_posted s)).

(** Lines 126-160: the loop of [main]. *)
Definition the_loop (fuel : nat) (start_post_date last_posted_date : option Z)
    (s : State W) : Out W (option Client) :=
  for_entries (loop_body env settings fuel start_post_date last_posted_date)
    (rev (fetched s)) None (at_loop s).

(** The loop over [entry :: rest], seen from its first iteration. *)
Inductive unrolled (fuel : nat) (start_post_date last_posted_date : option Z)
    (entry : Entry) (rest : list Entry) (client : option Client)
    (s : State W) (o : Out W (option Client)) : Prop :=
| unrolled_rejected :
    passes start_post_date last_posted_date entry = false ->
    o = for_entries (loop_body env settings fuel start_post_date last_posted_date)
          rest client s ->
    unrolled fuel start_post_date last_posted_date entry rest client s o
| unrolled_unparsed :
    passes start_post_date last_posted_date entry = false ->
    o = raise ValueError s ->
    unrolled fuel start_post_date last_posted_date entry rest client s o
| unrolled_done pre c call s' o' :
    passes start_post_date last_posted_date entry = true ->
    Forall silent pre ->
    truncate_text settings (title entry) (link entry) 300 = Ok (text_of call) ->
    last_posted s' = Some (published entry) ->
    o' = for_entries (loop_body env settings fuel start_post_date last_posted_date)
           rest (Some c) s' ->
    events o = pre ++ [EvSend entry c call true;
                       EvSave (published entry);
                       EvPrint "saved last posted date"] ++ events o' ->
    final o = final o' ->
    result o = result o' ->
    unrolled fuel start_post_date last_posted_date entry rest client s o
| unrolled_refused pre c call :
    passes start_post_date last_posted_date entry = true ->
    Forall silent pre ->
    truncate_text settings (title entry) (link entry) 300 = Ok (text_of call) ->
    events o = pre ++ [EvSend entry c call false] ->
    result o = Raise PublishError ->
    last_posted (final o) = last_posted s ->
    unrolled fuel start_post_date last_posted_date entry rest client s o
| unrolled_aborted :
    passes start_post_date last_posted_date entry = true ->
    Forall silent (events o) ->
    (forall x, result o <> Ok x) ->
    last_posted (final o) = last_posted s ->
    unrolled fuel start_post_date last_posted_date entry rest client s o.

End Predicates.

(** ** A concrete environment

    The world is the script of the answers [login] will give (an empty
    script answers with success); [strptime] knows three dates of the
    default format; [httpx.get] answers by a table; a publish call
    returns when [returns] says so. *)

Module Sample.

Definition mon := "Mon, 01 Jan 2024 10:00:00 +0000".
Definition tue := "Tue, 02 Jan 2024 10:00:00 +0000".
Definition wed := "Wed, 03 Jan 2024 10:00:00 +0000".

Definition calendar (s fmt : string) : option Z :=
  if (s =? mon)%string then Some 1704103200
  else if (s =? tue)%string then Some 1704189600
  else if (s =? wed)%string then Some 1704276000
  else None.

Definition web (target : string) : option Response :=
  if (target =? "http://x/a.png")%string
  then Some {| status_code := 200; content := "PNG" |}
  else if (target =? "http://x/gone.PNG")%string
  then Some {| status_code := 404; content := "not found" |}
  else Some {| status_code := 404; content := "not found" |}.

Definition scripted (handle password : string) (script : list LoginResult)
    : LoginResult * list LoginResult :=
  match script with
  | [] => (LoginOk, [])
  | r :: script' => (r, script')
  end.

Definition env (feed : list Entry) (returns : Client -> bool)
    : Env (list LoginResult) :=
  {| strptime := calendar;
     feedparser_parse := fun _ w => (feed, w);
     httpx_get := fun target w => (web target, w);
     client_login := scripted;
     client_send := fun c _ w => (returns c, w) |}.

(** An environment without state in which every collaborator answers. *)
Definition steady (feed : list Entry) : Env unit :=
  {| strptime := calendar;
     feedparser_parse := fun _ w => (feed, w);
     httpx_get := fun target w => (web target, w);
     client_login := fun _ _ w => (LoginOk, w);
     client_send := fun _ _ w => (true, w) |}.

Definition always (c : Client) : bool := true.

Definition logged_in (c : Client) : bool :=
  match me c with Some _ => true | None => false end.

Definition settings : Settings :=
  {| FEED_URL := "http://x/feed";
     HANDLE := "me.example";
     PASSWORD := "secret";
     START_POST_DATE := "";
     LAST_POSTED_FILE := "last_posted.txt";
     DATE_FORMAT := "%a, %d %b %Y %H:%M:%S %z";
     SKIP_TAG := Some "#nobot";
     SPLITTER := Some "|" |}.

Definition entry (t l p d : string) : Entry :=
  {| title := t; link := l; published := p; description := d;
     enclosures := None; media_content := None |}.

Definition with_media (e : Entry) (m : list Media) : Entry :=
  {| title := title e; link := link e; published := published e;
     description := description e;
     enclosures := enclosures e; media_content := Some m |}.

Definition a := entry "A" "http://x/a" mon "d".
Definition b := entry "B" "http://x/b" tue "d".
Definition c := entry "C" "http://x/c" wed "d".

Definition start (file : option string) (script : list LoginResult)
    : State (list LoginResult) :=
  {| world := script; last_posted := file |}.

(** [n] copies of a character. *)
Fixpoint copies (n : nat) (x : ascii) : string :=
  match n with
  | O => EmptyString
  | S n' => String x (copies n' x)
  end.

(** An entry with a title of 300 characters. *)
Definition long := entry (copies 300 "a") "http://x/long" mon "d".

(** The splitter occurs in the description only. *)
Definition marked := entry "T" "http://x/t" mon "intro|body".

(** The splitter occurs in the title. *)
Definition headed := entry "site | News of the day " "http://x/n" mon "d".

(** The skip tag occurs in the description. *)
Definition tagged := entry "S" "http://x/s" wed "text #nobot".

(** First media candidates: a picture, a missing picture, a candidate
    without address. *)
Definition pictured :=
  with_media a [{| url := Some "http://x/a.png" |}; {| url := Some "http://x/b.jpg" |}].
Definition unaddressed := with_media a [{| url := None |}].

(** An empty "enclosures" collection beside a picture under
    "media_content". *)
Definition shadowed : Entry :=
  {| title := "A"; link := "http://x/a"; published := mon; description := "d";
     enclosures := Some [];
     media_content := Some [{| url := Some "http://x/a.png" |}] |}.

(** An environment in which [httpx.get] raises. *)
Definition offline (feed : list Entry) : Env unit :=
  {| strptime := calendar;
     feedparser_parse := fun _ w => (feed, w);
     httpx_get := fun _ w => (None, w);
     client_login := fun _ _ w => (LoginOk, w);
     client_send := fun _ _ w => (true, w) |}.

(** An entry whose date is not of the configured format. *)
Definition undated := entry "U" "http://x/u" "yesterday" "d".

(** Settings with a start date. *)
Definition since (start : string) : Settings :=
  {| FEED_URL := "http://x/feed";
     HANDLE := "me.example";
     PASSWORD := "secret";
     START_POST_DATE := start;
     LAST_POSTED_FILE := "last_posted.txt";
     DATE_FORMAT := "%a, %d %b %Y %H:%M:%S %z";
     SKIP_TAG := Some "#nobot";
     SPLITTER := Some "|" |}.

Definition limited : list LoginResult :=
  [LoginRequestException "RateLimitExceeded"; LoginOk].

End Sample.

(** * Properties *)

(** ** Facts about the string operations *)

Module PyStrFacts.
Import PyStr.

Lemma append_nil_r (s : string) : (s ++ "")%string = s.
Proof. induction s as [|c s IH]; simpl; [reflexivity | now rewrite IH]. Qed.

Lemma append_assoc (a b c : string) :
  ((a ++ b) ++ c)%string = (a ++ (b ++ c))%string.
Proof. induction a as [|x a IH]; simpl; [reflexivity | now rewrite IH]. Qed.

Lemma length_append (a b : string) :
  String.length (a ++ b) = (String.length a + String.length b)%nat.
Proof. induction a as [|x a IH]; simpl; [reflexivity | now rewrite IH]. Qed.

Lemma length_take (n : nat) (s : string) :
  String.length (take n s) = Nat.min n (String.length s).
Proof.
  revert s; induction n as [|n IH]; intros [|c s]; simpl; try reflexivity.
  now rewrite IH.
Qed.

Lemma length_drop (n : nat) (s : string) :
  String.length (drop n s) = (String.length s - n)%nat.
Proof.
  revert s; induction n as [|n IH]; intros [|c s]; simpl; try reflexivity.
  apply IH.
Qed.

Lemma take_drop (n : nat) (s : string) : (take n s ++ drop n s)%string = s.
Proof.
  revert s; induction n as [|n IH]; intros [|c s]; simpl; try reflexivity.
  now rewrite IH.
Qed.

Lemma take_all (n : nat) (s : string) :
  (String.length s <= n)%nat -> take n s = s.
Proof.
  revert s; induction n as [|n IH]; intros [|c s] H; simpl in *;
    try reflexivity; try lia.
  rewrite IH; [reflexivity | lia].
Qed.

Lemma drop_append (a b : string) : drop (String.length a) (a ++ b) = b.
Proof. induction a as [|x a IH]; simpl; [reflexivity | exact IH]. Qed.

Lemma take_append (a b : string) : take (String.length a) (a ++ b) = a.
Proof. induction a as [|x a IH]; simpl; [reflexivity | now rewrite IH]. Qed.


Lemma prefix_spec (a s : string) :
  prefix a s = true <-> exists b, s = (a ++ b)%string.
Proof.
  revert s; induction a as [|x a IH]; intros [|y s]; simpl.
  - split; eauto.
  - split; eauto.
  - split; [discriminate | intros [b H]; discriminate].
  - destruct (ascii_dec x y) as [->|Hne].
    + split.
      * intros H. apply IH in H as [b ->]. now exists b.
      * intros [b H]. injection H as ->. apply IH. now exists b.
    + split; [discriminate | intros [b H]; injection H as H1 _; congruence].
Qed.





Lemma partition_head (sep s : string) :
  prefix sep s = true ->
  partition sep s = Some (EmptyString, drop (String.length sep) s).
Proof. intros H. destruct s; cbn [partition]; now rewrite H. Qed.

Lemma partition_tail (sep : string) (c : ascii) (s : string) :
  prefix sep (String c s) = false ->
  partition sep (String c s) =
  match partition sep s with
  | Some (a, b) => Some (String c a, b)
  | None => None
  end.
Proof. intros H. cbn [partition]. now rewrite H. Qed.

Lemma prefix_drop (sep s : string) :
  prefix sep s = true -> s = (sep ++ drop (String.length sep) s)%string.
Proof.
  intros H. apply prefix_spec in H as [r ->]. now rewrite drop_append.
Qed.

Lemma partition_spec (sep s a b : string) :
  partition sep s = Some (a, b) ->
  s = (a ++ sep ++ b)%string /\
  forall a' b', s = (a' ++ sep ++ b')%string ->
                (String.length a <= String.length a')%nat.
Proof.
  revert a b; induction s as [|c s IH]; intros a b.
  - destruct (prefix sep "") eqn:Hp.
    + rewrite partition_head by exact Hp. intros H; injection H as <- <-.
      split; [now apply prefix_drop | simpl; intros; lia].
    + cbn [partition]. rewrite Hp. discriminate.
  - destruct (prefix sep (String c s)) eqn:Hp.
    + rewrite partition_head by exact Hp. intros H; injection H as <- <-.
      split; [now apply prefix_drop | simpl; intros; lia].
    + rewrite partition_tail by exact Hp.
      destruct (partition sep s) as [[a0 b0]|] eqn:Hs; [|discriminate].
      intros H; injection H as <- <-.
      destruct (IH _ _ eq_refl) as [-> Hmin]. split; [reflexivity|].
      intros [|x a'] b' H'; simpl in H'.
      * assert (prefix sep (String c (a0 ++ sep ++ b0)) = true)
          by (apply prefix_spec; eauto).
        congruence.
      * injection H' as _ H'. simpl. apply le_n_S. eauto.
Qed.

Lemma contains_partition (sep s : string) :
  contains sep s = true <-> exists a b, partition sep s = Some (a, b).
Proof.
  induction s as [|c s IH].
  - cbn [contains]. destruct (prefix sep "") eqn:Hp.
    + rewrite partition_head by exact Hp. split; eauto.
    + cbn [partition]. rewrite Hp. split; [discriminate | intros (a & b & H); discriminate].
  - cbn [contains]. destruct (prefix sep (String c s)) eqn:Hp.
    + rewrite partition_head by exact Hp. split; eauto.
    + rewrite partition_tail by exact Hp. simpl orb. rewrite IH. split.
      * intros (a & b & ->). eauto.
      * intros (a & b & H).
        destruct (partition sep s) as [[a0 b0]|]; try discriminate; eauto.
Qed.

Lemma len_nonneg (s : string) : 0 <= len s.
Proof. unfold len; lia. Qed.

(** The length of a slice [s[:m]] with [0 <= m]. *)
Lemma len_slice_to (s : string) (m : Z) :
  0 <= m -> len (slice_to s m) = Z.min m (len s).
Proof.
  intros Hm. unfold slice_to, len.
  destruct (m <? 0) eqn:E; [apply Z.ltb_lt in E; lia|].
  rewrite length_take. lia.
Qed.



(** [lstrip] removes a run of white space from the front and leaves a
    text that does not start with white space. *)
Lemma lstrip_spec (s : string) :
  exists l, s = (l ++ lstrip s)%string /\ all_space l = true
            /\ match lstrip s with
               | EmptyString => True
               | String c _ => isspace c = false
               end.
Proof.
  induction s as [|c s (l & Hl & Hsp & Hhd)]; simpl.
  - exists EmptyString. auto.
  - destruct (isspace c) eqn:Hc.
    + exists (String c l). simpl. rewrite Hc, Hsp. split; [now rewrite <- Hl|auto].
    + exists EmptyString. simpl. auto.
Qed.

Lemma rstrip_spec (s : string) :
  exists r, s = (rstrip s ++ r)%string /\ all_space r = true
            /\ match last_char (rstrip s) with
               | Some c => isspace c = false
               | None => True
               end.
Proof.
  induction s as [|c s (r & Hr & Hsp & Hlast)]; simpl.
  - exists EmptyString. auto.
  - destruct (rstrip s) as [|x t] eqn:Ht.
    + destruct (isspace c) eqn:Hc.
      * exists (String c r). simpl in *. rewrite Hc, Hsp. split; [now rewrite <- Hr|auto].
      * exists r. simpl in *. split; [now rewrite <- Hr|auto].
    + exists r. split; [simpl in *; now rewrite <- Hr|]. split; [exact Hsp|].
      exact Hlast.
Qed.

Lemma rstrip_head (c : ascii) (s : string) :
  isspace c = false -> exists t, rstrip (String c s) = String c t.
Proof.
  intros Hc. simpl. destruct (rstrip s); rewrite ?Hc; eauto.
Qed.

(** [strip] removes white space from both ends, and only that. *)
Lemma strip_spec (s : string) :
  exists l r, s = (l ++ strip s ++ r)%string
              /\ all_space l = true /\ all_space r = true
              /\ trimmed (strip s) = true.
Proof.
  unfold strip.
  destruct (lstrip_spec s) as (l & Hl & Hlsp & Hhd).
  destruct (rstrip_spec (lstrip s)) as (r & Hr & Hrsp & Hlast).
  exists l, r. split; [now rewrite <- Hr|]. split; [exact Hlsp|].
  split; [exact Hrsp|]. unfold trimmed.
  apply andb_true_iff. split.
  - destruct (lstrip s) as [|c t] eqn:Ht; [reflexivity|].
    destruct (@rstrip_head c t Hhd) as [t' ->]. now rewrite Hhd.
  - destruct (last_char (rstrip (lstrip s))); [now rewrite Hlast|reflexivity].
Qed.

Lemma rstrip_fixed (s : string) :
  match last_char s with
  | Some c => isspace c = false
  | None => True
  end -> rstrip s = s.
Proof.
  induction s as [|c s IH]; [reflexivity|]. simpl.
  destruct s as [|x t].
  - intros ->. reflexivity.
  - intros H. rewrite (IH H). reflexivity.
Qed.

(** A text with no white space at its ends is left as it is. *)
Lemma strip_trimmed (s : string) : trimmed s = true -> strip s = s.
Proof.
  unfold trimmed, strip. intros H. apply andb_true_iff in H as [Hhd Hlast].
  assert (Hl : lstrip s = s).
  { destruct s as [|c t]; [reflexivity|]. simpl.
    apply negb_true_iff in Hhd. now rewrite Hhd. }
  rewrite Hl. apply rstrip_fixed.
  destruct (last_char s); [now apply negb_true_iff|exact I].
Qed.

(** *** Line ends read in text mode *)

Lemma universal_newlines_cons (c : ascii) (s : string) :
  universal_newlines (String c s)
  = if (c =? CR)%char
    then match s with
         | String c' _ =>
             if (c' =? LF)%char
             then universal_newlines s
             else String LF (universal_newlines s)
         | EmptyString => String LF EmptyString
         end
    else String c (universal_newlines s).
Proof. reflexivity. Qed.

(** A text without carriage return is read as it is. *)
Lemma universal_newlines_plain (s : string) :
  has_cr s = false -> universal_newlines s = s.
Proof.
  induction s as [|c s IH]; [reflexivity|].
  cbn [has_cr]. intros H. apply orb_false_iff in H as [Hc Hs].
  rewrite universal_newlines_cons, Hc. now rewrite (IH Hs).
Qed.

(** What is read holds no carriage return. *)
Lemma universal_newlines_no_cr (s : string) :
  has_cr (universal_newlines s) = false.
Proof.
  induction s as [|c s IH]; [reflexivity|].
  rewrite universal_newlines_cons.
  destruct (c =? CR)%char eqn:Hc.
  - destruct s as [|c' t]; [reflexivity|].
    destruct (c' =? LF)%char; [exact IH|].
    cbn [has_cr]. now rewrite IH.
  - cbn [has_cr]. now rewrite Hc, IH.
Qed.

Lemma universal_newlines_all_space (s : string) :
  all_space s = true -> all_space (universal_newlines s) = true.
Proof.
  induction s as [|c s IH]; [reflexivity|].
  cbn [all_space]. intros H. apply andb_true_iff in H as [Hc Hs].
  rewrite universal_newlines_cons.
  destruct (c =? CR)%char.
  - destruct s as [|c' t]; [reflexivity|].
    destruct (c' =? LF)%char; [exact (IH Hs)|].
    cbn [all_space]. now rewrite (IH Hs).
  - cbn [all_space]. now rewrite Hc, (IH Hs).
Qed.

Lemma has_cr_append (a b : string) :
  has_cr (a ++ b) = has_cr a || has_cr b.
Proof.
  induction a as [|c a IH]; [reflexivity|].
  simpl. now rewrite IH, orb_assoc.
Qed.

(** [strip] brings in no carriage return. *)
Lemma has_cr_strip (s : string) : has_cr s = false -> has_cr (strip s) = false.
Proof.
  intros H. destruct (strip_spec s) as (l & r & Heq & _).
  rewrite Heq, !has_cr_append in H.
  apply orb_false_iff in H as [_ H]. now apply orb_false_iff in H as [H _].
Qed.

(** What [read().strip()] gives for a content: the content with its line
    ends translated, without the white space at its two ends. *)
Lemma read_strip_spec (s : string) :
  let text := strip (universal_newlines s) in
  (exists l r, universal_newlines s = (l ++ text ++ r)%string
               /\ all_space l = true /\ all_space r = true)
  /\ trimmed text = true
  /\ has_cr text = false
  /\ (has_cr s = false -> text = strip s)
  /\ (has_cr s = false -> trimmed s = true -> text = s).
Proof.
  cbv zeta. destruct (strip_spec (universal_newlines s)) as (l & r & Heq & Hl & Hr & Ht).
  split; [now exists l, r|]. split; [exact Ht|].
  split; [apply has_cr_strip, universal_newlines_no_cr|].
  split.
  - intros H. now rewrite (universal_newlines_plain _ H).
  - intros H Htr. rewrite (universal_newlines_plain _ H). now apply strip_trimmed.
Qed.

End PyStrFacts.

(** ** Facts about lists *)

Lemma sorted_app {A} (R : A -> A -> Prop) (l1 l2 : list A) :
  StronglySorted R (l1 ++ l2) <->
  StronglySorted R l1 /\ StronglySorted R l2
  /\ (forall a b, In a l1 -> In b l2 -> R a b).
Proof.
  induction l1 as [|x l1 IH]; simpl.
  - split; [intros H; repeat split; auto; [constructor | contradiction]
           |now intros (_ & H & _)].
  - split.
    + intros H. apply StronglySorted_inv in H as [Hs Hf].
      apply IH in Hs as (H1 & H2 & H3). rewrite Forall_app in Hf.
      destruct Hf as [Hf1 Hf2]. rewrite Forall_forall in Hf2.
      repeat split; auto; [now constructor|].
      intros a b [<-|Ha] Hb; auto.
    + intros (H1 & H2 & H3). apply StronglySorted_inv in H1 as [Hs Hf].
      constructor.
      * apply IH. repeat split; auto.
      * apply Forall_app. split; [exact Hf|].
        apply Forall_forall. intros b Hb. apply H3; auto.
Qed.

Lemma sorted_rev {A} (R : A -> A -> Prop) (l : list A) :
  StronglySorted (fun a b => R b a) l -> StronglySorted R (rev l).
Proof.
  induction 1 as [|x l Hs IH Hf]; simpl; [constructor|].
  apply sorted_app. repeat split; auto.
  - repeat constructor.
  - intros a b Ha [<-|[]]. rewrite Forall_forall in Hf. apply Hf.
    now apply in_rev.
Qed.

Lemma sorted_filter {A} (R : A -> A -> Prop) (f : A -> bool) (l : list A) :
  StronglySorted R l -> StronglySorted R (filter f l).
Proof.
  induction 1 as [|x l Hs IH Hf]; simpl; [constructor|].
  destruct (f x); [|exact IH]. constructor; [exact IH|].
  rewrite Forall_forall in *. intros y Hy. apply Hf.
  now apply filter_In in Hy.
Qed.


(** ** Facts about traces *)

Lemma sends_app (a b : list Event) : sends (a ++ b) = sends a ++ sends b.
Proof. unfold sends. apply flat_map_app. Qed.

Lemma posted_app (a b : list Event) : posted (a ++ b) = posted a ++ posted b.
Proof. unfold posted. now rewrite sends_app, map_app. Qed.

Lemma saves_app (a b : list Event) : saves (a ++ b) = saves a ++ saves b.
Proof. unfold saves. apply flat_map_app. Qed.

Lemma sends_silent (tr : list Event) : Forall silent tr -> sends tr = [].
Proof.
  induction 1 as [|ev tr Hev _ IH]; [reflexivity|].
  destruct ev; simpl in *; auto; contradiction.
Qed.

Lemma posted_silent (tr : list Event) : Forall silent tr -> posted tr = [].
Proof. intros H. unfold posted. now rewrite sends_silent. Qed.

Lemma saves_silent (tr : list Event) : Forall silent tr -> saves tr = [].
Proof.
  induction 1 as [|ev tr Hev _ IH]; [reflexivity|].
  destruct ev; simpl in *; auto; contradiction.
Qed.

Lemma last_cons {A} (x : A) (l : list A) (d : A) : last (x :: l) d = last l x.
Proof.
  revert x d; induction l as [|y l IH]; intros x d; [reflexivity|].
  change (last (x :: y :: l) d) with (last (y :: l) d). now rewrite !IH.
Qed.

Lemma disciplined_quiet (tr : list Event) : Forall silent tr -> disciplined tr.
Proof. induction 1; constructor; auto. Qed.

Lemma disciplined_app (a b : list Event) :
  disciplined a -> disciplined b -> disciplined (a ++ b).
Proof.
  intros Ha Hb. induction Ha; simpl; auto.
  - now apply disciplined_silent.
  - now apply disciplined_send.
  - now apply disciplined_save.
Qed.

(** In a disciplined trace every write of the cursor stands right after
    a publish call that returned, and writes the [published] string of
    the entry of that call. *)
Lemma disciplined_spec (tr : list Event) :
  disciplined tr ->
  forall before text later,
    tr = before ++ EvSave text :: later ->
    exists earlier e c call,
      before = earlier ++ [EvSend e c call true] /\ text = published e.
Proof.
  induction 1 as [|ev tr Hev Htr IH|e c call r tr Htr IH|e c call tr Htr IH];
    intros before text later Heq.
  - destruct before; discriminate.
  - destruct before as [|x before]; simpl in Heq.
    + injection Heq as -> _. contradiction.
    + injection Heq as <- Heq.
      destruct (IH _ _ _ Heq) as (l0 & e & c & call & -> & ->).
      now exists (ev :: l0), e, c, call.
  - destruct before as [|x before]; simpl in Heq; [discriminate|].
    injection Heq as <- Heq.
    destruct (IH _ _ _ Heq) as (l0 & e' & c' & call' & -> & ->).
    now exists (EvSend e c call r :: l0), e', c', call'.
  - destruct before as [|x [|y before]]; simpl in Heq; [discriminate| |].
    + injection Heq as <- <- _. now exists [], e, c, call.
    + injection Heq as <- <- Heq.
      destruct (IH _ _ _ Heq) as (l0 & e' & c' & call' & -> & ->).
      now exists (EvSend e c call true :: EvSave (published e) :: l0), e', c', call'.
Qed.

(** ** Facts about the monad and the parts of the loop body *)

Create HintDb run.

Section RunFacts.

Context {W : Type}.
Variable env : Env W.
Variable settings : Settings.

Lemma quiet_ret {A} (a : A) : quiet (W := W) (ret a).
Proof. intros s; simpl; auto. Qed.

Lemma quiet_lift {A} (r : Res A) : quiet (W := W) (lift r).
Proof. intros s; simpl; auto. Qed.

Lemma quiet_raise {A} (e : Exc) : quiet (W := W) (@raise W A e).
Proof. intros s; simpl; auto. Qed.

Lemma quiet_out_of_fuel {A} : quiet (W := W) (@out_of_fuel W A).
Proof. intros s; simpl; auto. Qed.

Lemma quiet_emit (ev : Event) : silent ev -> quiet (W := W) (emit ev).
Proof. intros H s; simpl; auto. Qed.

Lemma quiet_call_world {A} (f : W -> A * W) : quiet (call_world f).
Proof. intros s; unfold call_world. destruct (f (world s)); simpl; auto. Qed.

Lemma quiet_read_file : quiet (W := W) read_file.
Proof. intros s; simpl; auto. Qed.

Lemma quiet_bind {A B} (m : M W A) (f : A -> M W B) :
  quiet m -> (forall a, quiet (f a)) -> quiet (bind m f).
Proof.
  intros Hm Hf s. destruct (Hm s) as [He Hl]. unfold bind.
  destruct (result (m s)) as [a| |]; simpl; auto.
  destruct (Hf a (final (m s))) as [He' Hl']. split.
  - apply Forall_app; auto.
  - congruence.
Qed.

Lemma bind_emit {B} (ev : Event) (f : unit -> M W B) (s : State W) :
  bind (emit ev) f s
  = {| events := ev :: events (f tt s);
       final := final (f tt s);
       result := result (f tt s) |}.
Proof. reflexivity. Qed.

Lemma bind_call_world {A B} (g : W -> A * W) (f : A -> M W B) (s : State W) :
  bind (call_world g) f s
  = f (fst (g (world s))) {| world := snd (g (world s)); last_posted := last_posted s |}.
Proof.
  unfold bind, call_world. destruct (g (world s)) as [a w]. simpl.
  now destruct (f a _).
Qed.

Lemma returns_ret {A} (a : A) : returns (W := W) (ret a).
Proof. intros s; simpl; eauto. Qed.

Lemma returns_emit (ev : Event) : returns (W := W) (emit ev).
Proof. intros s; simpl; eauto. Qed.

Lemma returns_call_world {A} (f : W -> A * W) : returns (call_world f).
Proof. intros s; unfold call_world. destruct (f (world s)); simpl; eauto. Qed.

Lemma returns_bind {A B} (m : M W A) (f : A -> M W B) :
  returns m -> (forall a, returns (f a)) -> returns (bind m f).
Proof.
  intros Hm Hf s. destruct (Hm s) as [a Ha]. unfold bind. rewrite Ha. simpl.
  apply Hf.
Qed.

#[local] Hint Resolve quiet_ret quiet_lift quiet_raise quiet_out_of_fuel
  quiet_call_world quiet_read_file returns_ret returns_emit
  returns_call_world : run.

Ltac quiet_steps :=
  repeat first
    [ apply quiet_bind; [|intros ?]
    | apply quiet_emit; exact I
    | solve [auto with run] ].

Lemma quiet_download_image (target : string) :
  quiet (download_image env target).
Proof.
  unfold download_image. quiet_steps.
  destruct a0 as [response|]; [destruct (status_code response =? 200)|];
    auto with run.
Qed.

Lemma quiet_select_image (entry : Entry) : quiet (select_image env entry).
Proof.
  unfold select_image.
  destruct (entry_get entry (media_key entry)) as [[|first rest]|];
    auto with run.
  quiet_steps. destruct a; auto with run.
  destruct (url first); auto with run.
  apply quiet_bind; [apply quiet_emit; exact I|].
  intros _. apply quiet_download_image.
Qed.

Lemma quiet_while (fuel : nat) (client : option Client) :
  quiet (while_client_is_None env settings fuel client).
Proof.
  revert client; induction fuel as [|fuel IH]; intros [c|]; simpl;
    auto with run.
  quiet_steps. destruct a0 as [|msg|]; auto with run.
  unfold print, sleep.
  destruct (PyStr.contains "RateLimitExceeded" msg); quiet_steps; apply IH.
Qed.

Lemma quiet_get_client (fuel : nat) : quiet (get_client env settings fuel).
Proof.
  unfold get_client. apply quiet_bind; [apply quiet_while|].
  intros [c|]; auto with run.
Qed.

Lemma while_bound (fuel : nat) (c : Client) :
  while_client_is_None env settings fuel (Some c) = ret (Some c).
Proof. destruct fuel; reflexivity. Qed.

(** The loop of [get_client] runs its body once: whatever [login]
    does, [client] is bound when the test of the loop is reached
    again. *)
Lemma while_once (fuel : nat) (s : State W) :
  while_client_is_None env settings (S fuel) None s = one_turn env settings s.
Proof.
  unfold one_turn. cbn [while_client_is_None].
  unfold bind, call_world; simpl.
  destruct (client_login env (HANDLE settings) (PASSWORD settings) (world s))
    as [[|msg|] w]; simpl; try reflexivity.
  - now rewrite while_bound.
  - destruct (PyStr.contains "RateLimitExceeded" msg); simpl;
      now rewrite while_bound.
Qed.

Lemma returns_get_client (fuel : nat) :
  (forall h p w, fst (client_login env h p w) <> LoginOtherError) ->
  returns (get_client env settings (S fuel)).
Proof.
  intros Hlogin s. unfold get_client, bind. rewrite while_once.
  unfold one_turn. rewrite bind_emit, bind_call_world.
  specialize (Hlogin (HANDLE settings) (PASSWORD settings) (world s)).
  destruct (client_login env (HANDLE settings) (PASSWORD settings) (world s))
    as [[|msg|] w]; cbn [fst snd events final result] in *; [| |congruence].
  - cbn. eauto.
  - destruct (PyStr.contains "RateLimitExceeded" msg); cbn; eauto.
Qed.

Lemma returns_bind_lift {A B} (r : Res A) (a : A) (f : A -> M W B) :
  r = Ok a -> returns (f a) -> returns (bind (lift r) f).
Proof.
  intros -> Hf s. destruct (Hf s) as [b Hb]. unfold bind, lift; simpl. eauto.
Qed.

Lemma returns_download_image (target : string) :
  (forall u w, fst (httpx_get env u w) <> None) ->
  returns (download_image env target).
Proof.
  intros Hget s. unfold download_image, bind, call_world; simpl.
  specialize (Hget target (world s)).
  destruct (httpx_get env target (world s)) as [[response|] w];
    simpl in *; [|congruence].
  destruct (status_code response =? 200); simpl; eauto.
Qed.

Lemma returns_select_image (entry : Entry) :
  first_media_has_url entry ->
  (forall u w, fst (httpx_get env u w) <> None) ->
  returns (select_image env entry).
Proof.
  unfold first_media_has_url, select_image. intros Hurl Hget.
  destruct (entry_get entry (media_key entry)) as [[|first rest]|];
    auto with run.
  destruct (url first) as [u|]; [|congruence].
  apply returns_bind_lift
    with (a := PyStr.endswith_any (PyStr.lower u) image_suffixes);
    [reflexivity|].
  destruct (PyStr.endswith_any (PyStr.lower u) image_suffixes);
    [|apply returns_ret].
  apply returns_bind; [apply returns_emit|].
  intros _. now apply returns_download_image.
Qed.

(** *** The body of the loop *)

Variable fuel : nat.
Variables start_post_date last_posted_date : option Z.

Local Notation body := (loop_body env settings fuel start_post_date last_posted_date).
Local Notation passing := (passes env settings start_post_date last_posted_date).

Lemma bind_lift_ok {A B} (a : A) (f : A -> M W B) (s : State W) :
  bind (lift (Ok a)) f s = f a s.
Proof. unfold bind, lift. simpl. now destruct (f a s). Qed.

Lemma bind_lift_raise {A B} (e : Exc) (f : A -> M W B) (s : State W) :
  bind (lift (Raise e)) f s = raise e s.
Proof. reflexivity. Qed.

(** The body of the loop, with its last part named. *)
Lemma loop_body_eq (entry : Entry) (client : option Client) :
  body entry client
  = if skipped settings entry then ret client
    else bind (lift (parse_date env settings (published entry)))
           (fun pub_date =>
              if after last_posted_date pub_date && after start_post_date pub_date
              then publish_steps env settings fuel entry client
              else ret client).
Proof. reflexivity. Qed.

Lemma body_skipped (entry : Entry) (client : option Client) (s : State W) :
  skipped settings entry = true -> body entry client s = ret client s.
Proof. intros H. rewrite loop_body_eq. now rewrite H. Qed.

Lemma body_unparsed (entry : Entry) (client : option Client) (s : State W) :
  skipped settings entry = false ->
  stamp env settings (published entry) = None ->
  body entry client s = raise ValueError s.
Proof.
  unfold stamp. intros H Hd. rewrite loop_body_eq, H. unfold parse_date.
  rewrite Hd. apply bind_lift_raise.
Qed.

Lemma body_filtered (entry : Entry) (client : option Client) (s : State W) t :
  skipped settings entry = false ->
  stamp env settings (published entry) = Some t ->
  after last_posted_date t && after start_post_date t = false ->
  body entry client s = ret client s.
Proof.
  unfold stamp. intros H Hd Ha. rewrite loop_body_eq, H. unfold parse_date.
  rewrite Hd, bind_lift_ok, Ha. reflexivity.
Qed.

(** An entry that does not pass the filters leaves no event and no
    change of state; the run goes on or stops on a date that does not
    parse. *)
Lemma body_rejects (entry : Entry) (client : option Client) (s : State W) :
  passing entry = false ->
  body entry client s = ret client s \/ body entry client s = raise ValueError s.
Proof.
  unfold passes. intros H.
  destruct (skipped settings entry) eqn:Hs.
  - left. now apply body_skipped.
  - destruct (stamp env settings (published entry)) as [t|] eqn:Hd.
    + left. now apply body_filtered with (t := t).
    + right. now apply body_unparsed.
Qed.

Lemma attempt_bind {A} (m : M W A) (f : A -> M W (option Client))
    (entry : Entry) (s : State W) :
  quiet m ->
  (forall a s', last_posted s' = last_posted s -> attempt settings entry s' (f a s')) ->
  attempt settings entry s (bind m f s).
Proof.
  intros Hm Hf. destruct (Hm s) as [He Hl]. unfold bind.
  destruct (result (m s)) as [a| |] eqn:Hr.
  - destruct (Hf a _ Hl) as [pre c call Hp Hev Ht Hres Hfin
                            |pre c call Hp Hev Ht Hres Hfin
                            |Hsil Hres Hfin].
    + apply attempt_done with (pre := events (m s) ++ pre) (c := c) (call := call);
        simpl; auto.
      * apply Forall_app; auto.
      * now rewrite Hev, app_assoc.
    + apply attempt_refused with (pre := events (m s) ++ pre) (c := c) (call := call);
        simpl; auto.
      * apply Forall_app; auto.
      * now rewrite Hev, app_assoc.
      * congruence.
    + apply attempt_aborted; simpl; auto.
      * apply Forall_app; auto.
      * congruence.
  - apply attempt_aborted; simpl; auto. discriminate.
  - apply attempt_aborted; simpl; auto. discriminate.
Qed.

Lemma attempt_bind_lift {A} (r : Res A) (f : A -> M W (option Client))
    (entry : Entry) (s : State W) :
  (forall a, r = Ok a -> attempt settings entry s (f a s)) ->
  attempt settings entry s (bind (lift r) f s).
Proof.
  intros Hf. unfold bind, lift; simpl. destruct r as [a| |]; simpl.
  - destruct (Hf a eq_refl) as [pre c call Hp Hev Ht Hres Hfin
                               |pre c call Hp Hev Ht Hres Hfin
                               |Hsil Hres Hfin].
    + now apply attempt_done with (pre := pre) (c := c) (call := call).
    + now apply attempt_refused with (pre := pre) (c := c) (call := call).
    + now apply attempt_aborted.
  - apply attempt_aborted; simpl; auto. discriminate.
  - apply attempt_aborted; simpl; auto. discriminate.
Qed.

(** The end of the body: the publish call, the write of the cursor
    and the last print. *)
Lemma attempt_publish (entry : Entry) (c : Client) (message : TextBuilder)
    (image : option string) (s : State W) :
  truncate_text settings (title entry) (link entry) 300 = Ok message ->
  attempt settings entry s
    ((post_to_bluesky env entry c message image ;;
      save_last_posted_date (published entry) ;;
      print "saved last posted date" ;;
      ret (Some c)) s).
Proof.
  intros Hm. unfold bind, post_to_bluesky.
  set (call := match image with
               | Some bytes =>
                   if PyStr.truthy bytes
                   then send_image message bytes "Image coming from the Fediverse"
                   else send_post message
               | None => send_post message
               end).
  assert (Ht : text_of call = message).
  { unfold call. destruct image as [bytes|]; [destruct (PyStr.truthy bytes)|];
      reflexivity. }
  destruct (client_send env c call (world s)) as [[|] w]; simpl.
  - apply attempt_done with (pre := []) (c := c) (call := call); simpl; auto.
    now rewrite Ht.
  - apply attempt_refused with (pre := []) (c := c) (call := call); simpl; auto.
    now rewrite Ht.
Qed.

Lemma body_passing (entry : Entry) (client : option Client) (s : State W) :
  passing entry = true ->
  body entry client s = publish_steps env settings fuel entry client s.
Proof.
  unfold passes, stamp. intros H. apply andb_true_iff in H as [Hs Hd].
  apply negb_true_iff in Hs.
  destruct (strptime env (published entry) (DATE_FORMAT settings)) as [t|] eqn:Ht;
    [|discriminate].
  rewrite loop_body_eq, Hs. unfold parse_date.
  rewrite Ht, bind_lift_ok, Hd. reflexivity.
Qed.

Lemma body_attempt (entry : Entry) (client : option Client) (s : State W) :
  passing entry = true -> attempt settings entry s (body entry client s).
Proof.
  intros H. rewrite (body_passing entry client s H). unfold publish_steps.
  apply attempt_bind; [apply quiet_emit; exact I|]. intros _ s1 H1.
  apply attempt_bind_lift. intros message Hm.
  apply attempt_bind; [apply quiet_select_image|]. intros image s2 H2.
  apply attempt_bind; [apply quiet_emit; exact I|]. intros _ s3 H3.
  apply attempt_bind.
  { destruct client; [apply quiet_ret | apply quiet_get_client]. }
  intros c s4 H4. now apply attempt_publish.
Qed.

Lemma bind_ret_eq {A B} (m : M W A) (f : A -> M W B) (a : A) (s : State W) :
  m s = ret a s -> bind m f s = f a s.
Proof. intros H. unfold bind. rewrite H. simpl. now destruct (f a s). Qed.

Lemma bind_raise_eq {A B} (m : M W A) (f : A -> M W B) (e : Exc) (s : State W) :
  m s = raise e s -> bind m f s = raise e s.
Proof. intros H. unfold bind. rewrite H. reflexivity. Qed.

Lemma loop_unrolled (entry : Entry) (rest : list Entry)
    (client : option Client) (s : State W) :
  unrolled env settings fuel start_post_date last_posted_date entry rest client s
    (for_entries body (entry :: rest) client s).
Proof.
  cbn [for_entries].
  destruct (passing entry) eqn:Hp.
  - destruct (body_attempt entry client s Hp)
      as [pre c call Hpre Hev Ht Hres Hfin
         |pre c call Hpre Hev Ht Hres Hfin
         |Hsil Hres Hfin].
    + eapply unrolled_done with (pre := pre) (c := c) (call := call);
        eauto; unfold bind; rewrite Hres; simpl; auto.
      now rewrite Hev, <- app_assoc.
    + apply unrolled_refused with (pre := pre) (c := c) (call := call);
        auto; unfold bind; rewrite Hres; simpl; auto.
    + unfold bind.
      destruct (result (body entry client s)) as [a| |] eqn:Hr;
        [now destruct (Hres a)| |];
        apply unrolled_aborted; simpl; auto; discriminate.
  - destruct (body_rejects entry client s Hp) as [H|H].
    + apply unrolled_rejected; auto. now apply bind_ret_eq.
    + apply unrolled_unparsed; auto. now apply bind_raise_eq.
Qed.

(** *** The loop *)

(** The entries published are the first ones of those that pass the
    filters, in the order of the loop; all of them when the loop returns. *)
Lemma loop_posted (entries : list Entry) (client : option Client) (s : State W) :
  exists rest,
    filter passing entries
    = posted (events (for_entries body entries client s)) ++ rest
    /\ (forall x, result (for_entries body entries client s) = Ok x -> rest = []).
Proof.
  revert client s; induction entries as [|e es IH]; intros client s.
  - exists []. simpl. auto.
  - destruct (loop_unrolled e es client s)
      as [Hp Ho|Hp Ho|pre c call s' o' Hp Hpre Ht Hfile Ho' Hev Hfin Hres
         |pre c call Hp Hpre Ht Hev Hres Hfin|Hp Hsil Hres Hfin];
      cbn [filter]; rewrite Hp.
    + rewrite Ho. apply IH.
    + rewrite Ho. exists (filter passing es). split; [reflexivity|discriminate].
    + destruct (IH (Some c) s') as (rest & Heq & Hok). exists rest.
      rewrite Hev, Hres, !posted_app, (posted_silent Hpre). subst o'.
      simpl. rewrite Heq. split; [reflexivity|exact Hok].
    + exists (filter passing es).
      rewrite Hev, Hres, !posted_app, (posted_silent Hpre). simpl.
      split; [reflexivity|discriminate].
    + exists (e :: filter passing es). rewrite (posted_silent Hsil). simpl.
      split; [reflexivity|]. intros x Hx. now destruct (Hres x).
Qed.

(** The same for the texts written to the cursor file. *)
Lemma loop_saves (entries : list Entry) (client : option Client) (s : State W) :
  exists rest,
    map published (filter passing entries)
    = saves (events (for_entries body entries client s)) ++ rest.
Proof.
  revert client s; induction entries as [|e es IH]; intros client s.
  - exists []. reflexivity.
  - destruct (loop_unrolled e es client s)
      as [Hp Ho|Hp Ho|pre c call s' o' Hp Hpre Ht Hfile Ho' Hev Hfin Hres
         |pre c call Hp Hpre Ht Hev Hres Hfin|Hp Hsil Hres Hfin];
      cbn [filter]; rewrite Hp.
    + rewrite Ho. apply IH.
    + rewrite Ho. now exists (map published (filter passing es)).
    + destruct (IH (Some c) s') as (rest & Heq). exists rest.
      rewrite Hev, !saves_app, (saves_silent Hpre). subst o'.
      simpl. now rewrite Heq.
    + exists (map published (e :: filter passing es)).
      now rewrite Hev, !saves_app, (saves_silent Hpre).
    + exists (map published (e :: filter passing es)).
      now rewrite (saves_silent Hsil).
Qed.

Lemma loop_disciplined (entries : list Entry) (client : option Client)
    (s : State W) :
  disciplined (events (for_entries body entries client s)).
Proof.
  revert client s; induction entries as [|e es IH]; intros client s.
  - constructor.
  - destruct (loop_unrolled e es client s)
      as [Hp Ho|Hp Ho|pre c call s' o' Hp Hpre Ht Hfile Ho' Hev Hfin Hres
         |pre c call Hp Hpre Ht Hev Hres Hfin|Hp Hsil Hres Hfin].
    + rewrite Ho. apply IH.
    + rewrite Ho. constructor.
    + rewrite Hev. apply disciplined_app; [now apply disciplined_quiet|].
      simpl. apply disciplined_save. apply disciplined_silent; [exact I|].
      subst o'. apply IH.
    + rewrite Hev. apply disciplined_app; [now apply disciplined_quiet|].
      apply disciplined_send. constructor.
    + now apply disciplined_quiet.
Qed.

(** Every publish call of the loop is made for an entry of the list
    that passes the filters, with the message [truncate_text] builds
    from the title and the link of that entry. *)
Lemma loop_calls (entries : list Entry) (client : option Client) (s : State W)
    (e : Entry) (c : Client) (call : SendCall) (r : bool) :
  In (EvSend e c call r) (events (for_entries body entries client s)) ->
  In e entries /\ passing e = true
  /\ truncate_text settings (title e) (link e) 300 = Ok (text_of call).
Proof.
  revert client s; induction entries as [|x es IH]; intros client s Hin.
  - destruct Hin.
  - assert (Hsilent : forall pre, Forall silent pre -> ~ In (EvSend e c call r) pre).
    { intros pre Hpre Hi. rewrite Forall_forall in Hpre. exact (Hpre _ Hi). }
    destruct (loop_unrolled x es client s)
      as [Hp Ho|Hp Ho|pre c' call' s' o' Hp Hpre Ht Hfile Ho' Hev Hfin Hres
         |pre c' call' Hp Hpre Ht Hev Hres Hfin|Hp Hsil Hres Hfin].
    + rewrite Ho in Hin. destruct (IH _ _ Hin) as (H1 & H2). split; [now right|auto].
    + rewrite Ho in Hin. destruct Hin.
    + rewrite Hev in Hin. apply in_app_or in Hin as [Hin|Hin];
        [now destruct (Hsilent _ Hpre)|].
      simpl in Hin. destruct Hin as [Hin|[Hin|[Hin|Hin]]]; try discriminate.
      * injection Hin as <- <- <- <-. split; [now left|auto].
      * subst o'. destruct (IH _ _ Hin) as (H1 & H2). split; [now right|auto].
    + rewrite Hev in Hin. apply in_app_or in Hin as [Hin|Hin];
        [now destruct (Hsilent _ Hpre)|].
      simpl in Hin. destruct Hin as [Hin|[]].
      injection Hin as <- <- <- <-. split; [now left|auto].
    + now destruct (Hsilent _ Hsil).
Qed.

(** The cursor file after the loop holds the last text written, and is
    as before the loop when nothing was written. *)
Lemma loop_file (entries : list Entry) (client : option Client) (s : State W) :
  last_posted (final (for_entries body entries client s))
  = last (map Some (saves (events (for_entries body entries client s))))
         (last_posted s).
Proof.
  revert client s; induction entries as [|e es IH]; intros client s.
  - reflexivity.
  - destruct (loop_unrolled e es client s)
      as [Hp Ho|Hp Ho|pre c call s' o' Hp Hpre Ht Hfile Ho' Hev Hfin Hres
         |pre c call Hp Hpre Ht Hev Hres Hfin|Hp Hsil Hres Hfin].
    + rewrite Ho. apply IH.
    + rewrite Ho. reflexivity.
    + rewrite Hev, Hfin, !saves_app, (saves_silent Hpre). subst o'.
      rewrite IH, Hfile. cbn [saves flat_map app map]. now rewrite last_cons.
    + rewrite Hev, Hfin, !saves_app, (saves_silent Hpre). reflexivity.
    + rewrite Hfin, (saves_silent Hsil). reflexivity.
Qed.

(** *** Runs in which nothing raises *)

Lemma cleanup_total (description : string) :
  exists body, cleanup settings description = Ok body.
Proof.
  unfold cleanup. destruct (configured (SPLITTER settings)) as [splitter|]; eauto.
  destruct (PyStr.contains splitter description) eqn:Hc; eauto.
  apply PyStrFacts.contains_partition in Hc as (a & b & Hab).
  unfold PyStr.split1. rewrite Hab. simpl. eauto.
Qed.

Lemma truncate_text_total (description link : string) (limit : Z) :
  exists b, truncate_text settings description link limit = Ok b.
Proof.
  unfold truncate_text. destruct (cleanup_total description) as [body ->]. eauto.
Qed.

Lemma returns_post (entry : Entry) (c : Client) (message : TextBuilder)
    (image : option string) :
  (forall c call w, fst (client_send env c call w) = true) ->
  returns (post_to_bluesky env entry c message image).
Proof.
  intros Hsend s. unfold post_to_bluesky.
  match goal with
  | |- context [client_send env c ?call (world s)] =>
      specialize (Hsend c call (world s));
      destruct (client_send env c call (world s)) as [r w]
  end.
  simpl in *. subst r. simpl. eauto.
Qed.

Lemma body_returns (entry : Entry) (client : option Client) (s : State W) :
  fuel <> O ->
  (skipped settings entry = false -> stamp env settings (published entry) <> None) ->
  first_media_has_url entry ->
  (forall u w, fst (httpx_get env u w) <> None) ->
  (forall h p w, fst (client_login env h p w) <> LoginOtherError) ->
  (forall c call w, fst (client_send env c call w) = true) ->
  exists c, result (body entry client s) = Ok c.
Proof.
  intros Hfuel Hdate Hurl Hget Hlogin Hsend.
  destruct (passing entry) eqn:Hp.
  - rewrite (body_passing entry client s Hp). revert s.
    change (returns (publish_steps env settings fuel entry client)).
    unfold publish_steps.
    apply returns_bind; [apply returns_emit|]. intros _.
    destruct (truncate_text_total (title entry) (link entry) 300) as [message Hm].
    apply returns_bind_lift with (a := message); [exact Hm|].
    apply returns_bind; [now apply returns_select_image|]. intros image.
    apply returns_bind; [apply returns_emit|]. intros _.
    apply returns_bind.
    { destruct client; [apply returns_ret|].
      destruct fuel; [congruence|]. now apply returns_get_client. }
    intros c. apply returns_bind; [now apply returns_post|]. intros _.
    apply returns_bind; [intros s; simpl; eauto|]. intros _.
    apply returns_bind; [apply returns_emit|]. intros _. apply returns_ret.
  - destruct (body_rejects entry client s Hp) as [H|H]; [rewrite H; simpl; eauto|].
    exfalso. unfold passes in Hp.
    destruct (skipped settings entry) eqn:Hs.
    + rewrite (body_skipped entry client s Hs) in H. discriminate.
    + specialize (Hdate eq_refl).
      destruct (stamp env settings (published entry)) as [t|] eqn:Hd; [|congruence].
      simpl in Hp. rewrite (body_filtered entry client s Hs Hd Hp) in H.
      discriminate.
Qed.

Lemma loop_returns (entries : list Entry) (client : option Client) (s : State W) :
  fuel <> O ->
  cooperative env settings entries ->
  exists c, result (for_entries body entries client s) = Ok c.
Proof.
  intros Hfuel Hco. revert client s.
  induction entries as [|e es IH]; intros client s.
  - simpl. eauto.
  - destruct Hco as [Hdate Hurl Hget Hlogin Hsend].
    destruct (body_returns e client s Hfuel) as [c Hc]; auto.
    + intros Hs. apply Hdate; [now left|exact Hs].
    + apply Hurl. now left.
    + cbn [for_entries]. unfold bind. rewrite Hc. simpl. apply IH.
      constructor; auto.
      * intros x Hx. apply Hdate. now right.
      * intros x Hx. apply Hurl. now right.
Qed.

(** When the loop returns, the body returned for each of its entries. *)
Lemma loop_ok_each (entries : list Entry) (client : option Client)
    (s : State W) (x : option Client) :
  result (for_entries body entries client s) = Ok x ->
  forall e, In e entries ->
            exists client' s' c, result (body e client' s') = Ok c.
Proof.
  revert client s; induction entries as [|y es IH]; intros client s Hok e Hin.
  - destruct Hin.
  - cbn [for_entries] in Hok. unfold bind in Hok.
    destruct (result (body y client s)) as [c| |] eqn:Hy; try discriminate.
    cbn [result] in Hok. destruct Hin as [<-|Hin].
    + now exists client, s, c.
    + exact (IH _ _ Hok e Hin).
Qed.

End RunFacts.

(** ** The run of [main] *)

Section MainFacts.

Context {W : Type}.
Variable env : Env W.
Variable settings : Settings.

Lemma read_last_posted_date_eq (s : State W) :
  read_last_posted_date s
  = ret (loaded (last_posted s)) s.
Proof.
  unfold read_last_posted_date, bind, read_file; simpl.
  now destruct (last_posted s).
Qed.

Lemma bind_read_last_posted_date {B} (f : option string -> M W B) (s : State W) :
  bind read_last_posted_date f s
  = f (loaded (last_posted s)) s.
Proof.
  unfold bind. rewrite read_last_posted_date_eq. simpl. now destruct (f _ s).
Qed.

Lemma bind_lift_stop {A B} (r : Res A) (f : A -> M W B) (s : State W) :
  (forall a, r <> Ok a) ->
  events (bind (lift r) f s) = []
  /\ final (bind (lift r) f s) = s
  /\ (forall b, result (bind (lift r) f s) <> Ok b).
Proof.
  intros H. destruct r as [a| |]; [now destruct (H a)| |];
    repeat split; discriminate.
Qed.

(** [main] is its loop, between the first print and the last one, when
    the start date and the cursor parse; it stops before the loop
    otherwise. *)
Lemma main_cases (fuel : nat) (s : State W) :
  (exists start last tail,
      start_of_run env settings = Ok start
      /\ cursor_of_run env settings s = Ok last
      /\ Forall silent tail
      /\ events (main env settings fuel s)
         = EvPrint ("Fetching " ++ FEED_URL settings)
             :: events (the_loop env settings fuel start last s) ++ tail
      /\ final (main env settings fuel s)
         = final (the_loop env settings fuel start last s)
      /\ (result (main env settings fuel s) = Ok tt
          <-> exists c, result (the_loop env settings fuel start last s) = Ok c))
  \/ (Forall silent (events (main env settings fuel s))
      /\ last_posted (final (main env settings fuel s)) = last_posted s
      /\ result (main env settings fuel s) <> Ok tt
      /\ (forall start last,
             start_of_run env settings = Ok start ->
             cursor_of_run env settings s = Ok last -> False)).
Proof.
  unfold main, print. rewrite bind_emit. cbn [events final result].
  fold (start_of_run env settings).
  destruct (start_of_run env settings) as [start| |] eqn:Hstart.
  2,3: right;
    match goal with
    | |- context [bind (lift ?r) ?f ?s1] =>
        destruct (@bind_lift_stop _ _ r f s1) as (He & Hf & Hr);
          [discriminate|rewrite He, Hf]
    end;
    (split; [repeat constructor
            |split; [reflexivity
                    |split; [apply Hr|intros; discriminate]]]).
  rewrite bind_lift_ok, bind_call_world, bind_read_last_posted_date.
  cbn [last_posted]. fold (cursor_of_run env settings s).
  fold (fetched env settings s). fold (at_loop env settings s).
  destruct (cursor_of_run env settings s) as [last| |] eqn:Hlast.
  2,3: right;
    match goal with
    | |- context [bind (lift ?r) ?f ?s1] =>
        destruct (@bind_lift_stop _ _ r f s1) as (He & Hf & Hr);
          [discriminate|rewrite He, Hf]
    end;
    (split; [repeat constructor
            |split; [reflexivity
                    |split; [apply Hr|intros; discriminate]]]).
  rewrite bind_lift_ok.
  left. exists start, last. unfold the_loop, bind.
  destruct (result (for_entries (loop_body env settings fuel start last)
                      (rev (fetched env settings s)) None (at_loop env settings s)))
    as [c| |] eqn:Hres; cbn [result final events emit].
  - exists [EvPrint "all done with work"].
    repeat split; eauto; repeat constructor.
  - exists []. rewrite app_nil_r. repeat split; auto; try discriminate.
    intros [c Hc]; discriminate.
  - exists []. rewrite app_nil_r. repeat split; auto; try discriminate.
    intros [c Hc]; discriminate.
Qed.

Lemma main_dichotomy (s : State W) :
  (exists start last, start_of_run env settings = Ok start
                      /\ cursor_of_run env settings s = Ok last)
  \/ (forall start last, start_of_run env settings = Ok start ->
                         cursor_of_run env settings s = Ok last -> False).
Proof.
  destruct (start_of_run env settings) as [start| |];
    try (right; intros; discriminate).
  destruct (cursor_of_run env settings s) as [last| |];
    try (right; intros; discriminate).
  left. eauto.
Qed.

(** The run seen through its loop, when the two dates parse. *)
Lemma main_through_loop (fuel : nat) (s : State W) (start last : option Z) :
  start_of_run env settings = Ok start ->
  cursor_of_run env settings s = Ok last ->
  exists tail,
    Forall silent tail
    /\ events (main env settings fuel s)
       = EvPrint ("Fetching " ++ FEED_URL settings)
           :: events (the_loop env settings fuel start last s) ++ tail
    /\ final (main env settings fuel s)
       = final (the_loop env settings fuel start last s)
    /\ (result (main env settings fuel s) = Ok tt
        <-> exists c, result (the_loop env settings fuel start last s) = Ok c).
Proof.
  intros Hs Hl.
  destruct (main_cases fuel s)
    as [(start' & last' & tail & Hs' & Hl' & H)|(_ & _ & _ & H)].
  - rewrite Hs in Hs'. rewrite Hl in Hl'.
    injection Hs' as <-. injection Hl' as <-. now exists tail.
  - destruct (H _ _ Hs Hl).
Qed.

Lemma main_posted (fuel : nat) (s : State W) (start last : option Z) :
  start_of_run env settings = Ok start ->
  cursor_of_run env settings s = Ok last ->
  exists rest,
    filter (passes env settings start last) (rev (fetched env settings s))
    = posted (events (main env settings fuel s)) ++ rest
    /\ (result (main env settings fuel s) = Ok tt -> rest = []).
Proof.
  intros Hs Hl.
  destruct (main_through_loop fuel s Hs Hl) as (tail & Htail & Hev & _ & Hres).
  destruct (loop_posted env settings fuel start last
              (rev (fetched env settings s)) None (at_loop env settings s))
    as (rest & Heq & Hok).
  exists rest. rewrite Hev.
  change (EvPrint ("Fetching " ++ FEED_URL settings)
            :: events (the_loop env settings fuel start last s) ++ tail)
    with ([EvPrint ("Fetching " ++ FEED_URL settings)]
            ++ events (the_loop env settings fuel start last s) ++ tail).
  rewrite !posted_app, (posted_silent Htail), app_nil_r. simpl. split; [exact Heq|].
  intros H. apply Hres in H as [c Hc]. exact (Hok _ Hc).
Qed.

Lemma main_saves (fuel : nat) (s : State W) (start last : option Z) :
  start_of_run env settings = Ok start ->
  cursor_of_run env settings s = Ok last ->
  exists rest,
    map published
      (filter (passes env settings start last) (rev (fetched env settings s)))
    = saves (events (main env settings fuel s)) ++ rest.
Proof.
  intros Hs Hl.
  destruct (main_through_loop fuel s Hs Hl) as (tail & Htail & Hev & _ & Hres).
  destruct (loop_saves env settings fuel start last
              (rev (fetched env settings s)) None (at_loop env settings s))
    as (rest & Heq).
  exists rest. rewrite Hev.
  change (EvPrint ("Fetching " ++ FEED_URL settings)
            :: events (the_loop env settings fuel start last s) ++ tail)
    with ([EvPrint ("Fetching " ++ FEED_URL settings)]
            ++ events (the_loop env settings fuel start last s) ++ tail).
  rewrite !saves_app, (saves_silent Htail), app_nil_r. exact Heq.
Qed.

(** A run that stops before its loop publishes and writes nothing. *)
Lemma main_early (fuel : nat) (s : State W) :
  (forall start last, start_of_run env settings = Ok start ->
                      cursor_of_run env settings s = Ok last -> False) ->
  posted (events (main env settings fuel s)) = []
  /\ saves (events (main env settings fuel s)) = []
  /\ Forall silent (events (main env settings fuel s))
  /\ last_posted (final (main env settings fuel s)) = last_posted s
  /\ result (main env settings fuel s) <> Ok tt.
Proof.
  intros Hno.
  destruct (main_cases fuel s)
    as [(start & last & tail & Hs & Hl & _)|(Hsil & Hfile & Hres & _)].
  - destruct (Hno _ _ Hs Hl).
  - rewrite (posted_silent Hsil), (saves_silent Hsil). auto.
Qed.

Lemma main_disciplined (fuel : nat) (s : State W) :
  disciplined (events (main env settings fuel s)).
Proof.
  destruct (main_dichotomy s) as [(start & last & Hs & Hl)|Hno].
  - destruct (main_through_loop fuel s Hs Hl) as (tail & Htail & Hev & _).
    rewrite Hev. apply disciplined_silent; [exact I|].
    apply disciplined_app; [apply loop_disciplined | now apply disciplined_quiet].
  - apply disciplined_quiet. now apply main_early.
Qed.

Lemma main_file (fuel : nat) (s : State W) :
  last_posted (final (main env settings fuel s))
  = last (map Some (saves (events (main env settings fuel s)))) (last_posted s).
Proof.
  destruct (main_dichotomy s) as [(start & last & Hs & Hl)|Hno].
  - destruct (main_through_loop fuel s Hs Hl) as (tail & Htail & Hev & Hfin & _).
    rewrite Hev, Hfin.
    change (EvPrint ("Fetching " ++ FEED_URL settings)
              :: events (the_loop env settings fuel start last s) ++ tail)
      with ([EvPrint ("Fetching " ++ FEED_URL settings)]
              ++ events (the_loop env settings fuel start last s) ++ tail).
    rewrite !saves_app, (saves_silent Htail), app_nil_r. simpl.
    unfold the_loop. now rewrite loop_file.
  - destruct (main_early fuel s Hno) as (_ & Hsaves & _ & Hfile & _).
    now rewrite Hsaves, Hfile.
Qed.

(** Every publish call of a run is made for a fetched entry that passes
    the filters of the run, with the message built from its title. *)
Lemma main_calls (fuel : nat) (s : State W) (e : Entry) (c : Client)
    (call : SendCall) (r : bool) :
  In (EvSend e c call r) (events (main env settings fuel s)) ->
  exists start last,
    start_of_run env settings = Ok start
    /\ cursor_of_run env settings s = Ok last
    /\ In e (fetched env settings s)
    /\ passes env settings start last e = true
    /\ truncate_text settings (title e) (link e) 300 = Ok (text_of call).
Proof.
  intros Hin.
  assert (Hsilent : forall pre, Forall silent pre -> ~ In (EvSend e c call r) pre).
  { intros pre Hpre Hi. rewrite Forall_forall in Hpre. exact (Hpre _ Hi). }
  destruct (main_dichotomy s) as [(start & last & Hs & Hl)|Hno].
  - destruct (main_through_loop fuel s Hs Hl) as (tail & Htail & Hev & _).
    rewrite Hev in Hin. destruct Hin as [Hin|Hin]; [discriminate|].
    apply in_app_or in Hin as [Hin|Hin]; [|now destruct (Hsilent _ Htail)].
    unfold the_loop in Hin. apply loop_calls in Hin as (H1 & H2 & H3).
    exists start, last. repeat split; auto. now apply in_rev.
  - destruct (main_early fuel s Hno) as (_ & _ & Hsil & _).
    now destruct (Hsilent _ Hsil).
Qed.

(** The entries a run publishes are fetched entries that pass its
    filters. *)
Lemma main_posted_in (fuel : nat) (s : State W) (e : Entry) :
  In e (posted (events (main env settings fuel s))) ->
  exists start last,
    start_of_run env settings = Ok start
    /\ cursor_of_run env settings s = Ok last
    /\ In e (fetched env settings s)
    /\ passes env settings start last e = true.
Proof.
  intros Hin.
  destruct (main_dichotomy s) as [(start & last & Hs & Hl)|Hno].
  - destruct (main_posted fuel s Hs Hl) as (rest & Heq & _).
    assert (H : In e (filter (passes env settings start last)
                        (rev (fetched env settings s))))
      by (rewrite Heq; apply in_or_app; now left).
    apply filter_In in H as [H1 H2]. exists start, last.
    repeat split; auto. now apply in_rev.
  - destruct (main_early fuel s Hno) as (Hp & _). rewrite Hp in Hin. destruct Hin.
Qed.

Lemma cooperative_rev (feed : list Entry) :
  cooperative env settings feed -> cooperative env settings (rev feed).
Proof.
  intros [Hd Hu Hg Hl Hs]. constructor; auto.
  - intros e He. apply Hd. now apply in_rev.
  - intros e He. apply Hu. now apply in_rev.
Qed.

(** A run in which nothing raises goes to its end. *)
Lemma main_returns (fuel : nat) (s : State W) (start last : option Z) :
  start_of_run env settings = Ok start ->
  cursor_of_run env settings s = Ok last ->
  cooperative env settings (fetched env settings s) ->
  fuel <> O ->
  result (main env settings fuel s) = Ok tt.
Proof.
  intros Hs Hl Hco Hfuel.
  destruct (main_through_loop fuel s Hs Hl) as (tail & _ & _ & _ & Hres).
  apply Hres. unfold the_loop. apply loop_returns; [exact Hfuel|].
  now apply cooperative_rev.
Qed.

End MainFacts.

(** * The claims *)

Section Claims.

Context {W : Type}.
Variable env : Env W.
Variable settings : Settings.

(** C8 -- Cursor persistence round trip.  Saving a cursor returns and
    leaves exactly the text it was given as the whole content of the
    file, whatever the file held before.  Reading the file back gives
    that text with its line ends as text mode reads them (a carriage
    return, alone or before a line feed, becomes a line feed) and
    without the white space at its two ends: what is read is the middle
    of the translated text between two runs of white space, has no
    white space at either end and no carriage return.  For a text
    without carriage return it is that text stripped, and the very text
    when it has no white space at its ends either.  Reading when there
    is no file gives [None] and no error.  In a run of [main] every text
    written is the [published] string of a fetched entry, unparsed, and
    the file ends up holding the last text written. *)
Theorem cursor_round_trip (pub_date : string) (s : State W) (fuel : nat) :
  let saved := save_last_posted_date pub_date s in
  let absent := {| world := world s; last_posted := None |} in
  let text := PyStr.strip (PyStr.universal_newlines pub_date) in
  result saved = Ok tt
  /\ final saved = {| world := world s; last_posted := Some pub_date |}
  /\ read_last_posted_date (final saved) = ret (Some text) (final saved)
  /\ (exists l r,
        PyStr.universal_newlines pub_date = (l ++ text ++ r)%string
        /\ PyStr.all_space l = true /\ PyStr.all_space r = true)
  /\ PyStr.trimmed text = true
  /\ PyStr.has_cr text = false
  /\ (PyStr.has_cr pub_date = false -> text = PyStr.strip pub_date)
  /\ (PyStr.has_cr pub_date = false -> PyStr.trimmed pub_date = true ->
      text = pub_date)
  /\ read_last_posted_date absent = ret None absent
  /\ Forall (fun written => exists e, In e (fetched env settings s)
                                      /\ written = published e)
       (saves (events (main env settings fuel s)))
  /\ last_posted (final (main env settings fuel s))
     = last (map Some (saves (events (main env settings fuel s))))
         (last_posted s).
Proof.
  cbv zeta.
  destruct (PyStrFacts.read_strip_spec pub_date) as (H1 & H2 & H3 & H4 & H5).
  split; [reflexivity|]. split; [reflexivity|]. split; [reflexivity|].
  split; [exact H1|]. split; [exact H2|]. split; [exact H3|].
  split; [exact H4|]. split; [exact H5|]. split; [reflexivity|]. split.
  - apply Forall_forall. intros text Hin.
    destruct (main_dichotomy env settings s) as [(start & last & Hs & Hl)|Hno].
    + destruct (main_saves env settings fuel s Hs Hl) as (rest & Heq).
      assert (H : In text (map published
                             (filter (passes env settings start last)
                                (rev (fetched env settings s)))))
        by (rewrite Heq; apply in_or_app; now left).
      apply in_map_iff in H as (e & <- & He). apply filter_In in He as [He _].
      exists e. split; [now apply in_rev|reflexivity].
    + destruct (main_early env settings fuel s Hno) as (_ & Hsaves & _).
      rewrite Hsaves in Hin. destruct Hin.
  - apply main_file.
Qed.

Lemma len_link_text : PyStr.len link_text = 9.
Proof. reflexivity. Qed.

Lemma build_text_message (body link : string) :
  build_text (tb_link (tb_text [] (body ++ " ")%string) link_text link)
  = ((body ++ " ") ++ link_text)%string.
Proof.
  reflexivity.
Qed.

(** The length of the rendered message: the text kept, the space and
    the label. *)
Lemma truncate_text_length (description link body : string) (limit : Z) :
  cleanup settings description = Ok body ->
  PyStr.len link_text <= limit ->
  exists b, truncate_text settings description link limit = Ok b
            /\ PyStr.len (build_text b)
               = Z.min (PyStr.len body) (limit - PyStr.len link_text) + 1
                 + PyStr.len link_text.
Proof.
  intros Hc Hl. unfold truncate_text. rewrite Hc. eexists. split; [reflexivity|].
  rewrite build_text_message. unfold PyStr.len at 1.
  rewrite !PyStrFacts.length_append. fold (PyStr.len link_text).
  assert (Hcut : PyStr.len (cut body limit)
                 = Z.min (PyStr.len body) (limit - PyStr.len link_text)).
  { unfold cut.
    destruct (PyStr.len body >? limit - PyStr.len link_text) eqn:E.
    - rewrite PyStrFacts.len_slice_to by lia. lia.
    - assert (PyStr.len body <= limit - PyStr.len link_text) by lia. lia. }
  unfold PyStr.len in *. simpl String.length in *. lia.
Qed.

(** C4 -- Truncation bound, where the code misses it.  For every limit
    [L] with [len("Read post") <= L] and every text whose cleaned-up
    body has at least [L - len("Read post")] characters, the rendered
    message (body kept, joining space, label) has [L + 1] characters:
    the cut keeps [L - len("Read post")] characters and leaves no room
    for the space. *)
Theorem truncate_text_overshoots (description link body : string) (limit : Z) :
  cleanup settings description = Ok body ->
  PyStr.len link_text <= limit ->
  limit - PyStr.len link_text <= PyStr.len body ->
  exists b, truncate_text settings description link limit = Ok b
            /\ PyStr.len (build_text b) = limit + 1.
Proof.
  intros Hc Hl Hlong.
  destruct (truncate_text_length description link Hc Hl) as (b & Hb & Hlen).
  exists b. split; [exact Hb|]. rewrite Hlen. lia.
Qed.

(** The bound does hold for the texts that are shorter than the cut. *)
Lemma truncate_text_short (description link body : string) (limit : Z) :
  cleanup settings description = Ok body ->
  PyStr.len link_text <= limit ->
  PyStr.len body < limit - PyStr.len link_text ->
  exists b, truncate_text settings description link limit = Ok b
            /\ PyStr.len (build_text b) <= limit.
Proof.
  intros Hc Hl Hshort.
  destruct (truncate_text_length description link Hc Hl) as (b & Hb & Hlen).
  exists b. split; [exact Hb|]. rewrite Hlen. lia.
Qed.

Lemma cut_300 (body : string) : cut body 300 = PyStr.take 291 body.
Proof.
  unfold cut. rewrite len_link_text.
  destruct (PyStr.len body >? 300 - 9) eqn:E.
  - reflexivity.
  - symmetry. apply PyStrFacts.take_all. unfold PyStr.len in E. lia.
Qed.

(** What [truncate_text] makes of a text with the limit of [main]. *)
Lemma truncate_text_shape (description link : string) :
  exists body,
    truncate_text settings description link 300
    = Ok [SegText (PyStr.take 291 body ++ " "); SegLink "Read post" link]
    /\ ((exists splitter before rest,
            configured (SPLITTER settings) = Some splitter
            /\ description = (before ++ splitter ++ rest)%string
            /\ (forall before' rest',
                   description = (before' ++ splitter ++ rest')%string ->
                   (String.length before <= String.length before')%nat)
            /\ body = PyStr.strip rest)
        \/ ((forall splitter,
                configured (SPLITTER settings) = Some splitter ->
                PyStr.contains splitter description = false)
            /\ body = description)).
Proof.
  unfold truncate_text, cleanup.
  destruct (configured (SPLITTER settings)) as [splitter|] eqn:Hsp.
  - destruct (PyStr.contains splitter description) eqn:Hc.
    + apply PyStrFacts.contains_partition in Hc as (before & rest & Hp).
      unfold PyStr.split1. rewrite Hp. simpl item1. cbv iota.
      exists (PyStr.strip rest). rewrite cut_300. split; [reflexivity|].
      left. exists splitter, before, rest.
      destruct (PyStrFacts.partition_spec _ _ Hp) as [Heq Hmin]. auto.
    + exists description. rewrite cut_300. split; [reflexivity|].
      right. split; [|reflexivity]. intros sp H. now injection H as <-.
  - exists description. rewrite cut_300. split; [reflexivity|].
    right. split; [|reflexivity]. intros sp H. discriminate.
Qed.

(** C5 -- Splitter rule, as the code has it.  The text handed to
    [truncate_text] is the title of the entry, so the splitter is looked
    for in the title: for every publish call of a run, if a splitter is
    configured (and not empty) and occurs in the title of the entry, the
    body of the message is the text after its first occurrence in the
    title with the white space at its ends stripped, and otherwise the
    body is the title; in both cases the body is cut to its first 291
    characters and followed by a space and the link "Read post" to the
    link of the entry. *)
Theorem splitter_rule (fuel : nat) (s : State W) (e : Entry) (c : Client)
    (call : SendCall) (r : bool) :
  In (EvSend e c call r) (events (main env settings fuel s)) ->
  exists body,
    text_of call
    = [SegText (PyStr.take 291 body ++ " "); SegLink "Read post" (link e)]
    /\ ((exists splitter before rest,
            configured (SPLITTER settings) = Some splitter
            /\ title e = (before ++ splitter ++ rest)%string
            /\ (forall before' rest',
                   title e = (before' ++ splitter ++ rest')%string ->
                   (String.length before <= String.length before')%nat)
            /\ body = PyStr.strip rest)
        \/ ((forall splitter,
                configured (SPLITTER settings) = Some splitter ->
                PyStr.contains splitter (title e) = false)
            /\ body = title e)).
Proof.
  intros Hin.
  destruct (main_calls Hin)
    as (start & last & _ & _ & _ & _ & Ht).
  destruct (truncate_text_shape (title e) (link e)) as (body & Hb & Hcase).
  exists body. split; [congruence|exact Hcase].
Qed.

(** C9 -- Session acquisition, where the code misses the retry.  When
    [login] raises a [RequestException], [get_client] handles it (with
    the pause of 86400 seconds when the message names the rate limit)
    and then leaves its loop: it has made one login attempt and returns
    the client that is not logged in. *)
Theorem get_client_does_not_retry (fuel : nat) (s : State W) (msg : string)
    (w : W) :
  client_login env (HANDLE settings) (PASSWORD settings) (world s)
  = (LoginRequestException msg, w) ->
  let o := get_client env settings (S fuel) s in
  result o = Ok {| me := None |}
  /\ logins (events o) = 1%nat
  /\ world (final o) = w
  /\ events o
     = EvLogin (HANDLE settings) (PASSWORD settings)
         :: (if PyStr.contains "RateLimitExceeded" msg
             then [EvPrint "Rate Limited"; EvSleep 86400]
             else [])
         ++ [EvPrint msg].
Proof.
  intros Hlogin. cbv zeta. unfold get_client, bind. rewrite while_once.
  unfold one_turn. rewrite bind_emit, bind_call_world, Hlogin.
  cbn [fst snd events final result].
  destruct (PyStr.contains "RateLimitExceeded" msg); cbn; auto.
Qed.

Lemma select_image_eq (entry : Entry) (first : Media) (rest : list Media)
    (u : string) (s : State W) :
  entry_get entry (media_key entry) = Some (first :: rest) ->
  url first = Some u ->
  select_image env entry s
  = if PyStr.endswith_any (PyStr.lower u) image_suffixes
    then (print ("downloading image: " ++ u)%string ;; download_image env u) s
    else ret None s.
Proof.
  intros He Hu. unfold select_image. rewrite He, Hu. cbn [is_image].
  rewrite bind_lift_ok.
  now destruct (PyStr.endswith_any (PyStr.lower u) image_suffixes).
Qed.

Lemma download_image_eq (target : string) (s : State W) :
  download_image env target s
  = {| events := [EvGet target];
       final := {| world := snd (httpx_get env target (world s));
                   last_posted := last_posted s |};
       result := match fst (httpx_get env target (world s)) with
                 | None => Raise TransportError
                 | Some response =>
                     if status_code response =? 200
                     then Ok (Some (content response))
                     else Ok None
                 end |}.
Proof.
  unfold download_image. rewrite bind_emit, bind_call_world.
  destruct (fst (httpx_get env target (world s))) as [response|];
    [destruct (status_code response =? 200)|]; reflexivity.
Qed.











Lemma skipped_tag (tag : string) (entry : Entry) :
  SKIP_TAG settings = Some tag ->
  tag <> EmptyString ->
  PyStr.contains tag (description entry) = true ->
  skipped settings entry = true.
Proof.
  intros Htag Hne Hin. unfold skipped, configured, PyStr.truthy. rewrite Htag.
  apply String.eqb_neq in Hne. now rewrite Hne.
Qed.

Lemma passes_not_skipped (start last : option Z) (entry : Entry) :
  passes env settings start last entry = true -> skipped settings entry = false.
Proof.
  unfold passes. intros H. apply andb_true_iff in H as [H _].
  now apply negb_true_iff.
Qed.

(** C6 -- Skip-tag frame condition.  For an entry whose description
    contains the configured skip marker: the iteration of the loop for
    that entry does nothing (no event, the state and the cursor file as
    they were, whatever the date of the entry, which is not even
    parsed); no run publishes the entry; and a run whose fetched entries
    all carry the marker publishes nothing, writes nothing and leaves
    the cursor file as it was. *)
Theorem skip_tag_frame (tag : string) (entry : Entry) :
  SKIP_TAG settings = Some tag ->
  tag <> EmptyString ->
  PyStr.contains tag (description entry) = true ->
  (forall fuel start last client s,
      loop_body env settings fuel start last entry client s = ret client s)
  /\ (forall fuel s, ~ In entry (posted (events (main env settings fuel s))))
  /\ (forall fuel s,
        (forall e, In e (fetched env settings s) ->
                   PyStr.contains tag (description e) = true) ->
        posted (events (main env settings fuel s)) = []
        /\ saves (events (main env settings fuel s)) = []
        /\ last_posted (final (main env settings fuel s)) = last_posted s).
Proof.
  intros Htag Hne Hin. split; [|split].
  - intros fuel start last client s. apply body_skipped.
    now apply skipped_tag with (tag := tag).
  - intros fuel s Hp. apply main_posted_in in Hp as (start & last & _ & _ & _ & Hp).
    apply passes_not_skipped in Hp.
    rewrite (skipped_tag entry Htag Hne Hin) in Hp. discriminate.
  - intros fuel s Hall.
    assert (Hposted : posted (events (main env settings fuel s)) = []).
    { destruct (posted (events (main env settings fuel s))) as [|e l] eqn:Hl;
        [reflexivity|].
      assert (He : In e (posted (events (main env settings fuel s))))
        by (rewrite Hl; now left).
      apply main_posted_in in He as (start & last & _ & _ & He & Hp).
      apply passes_not_skipped in Hp.
      rewrite (skipped_tag e Htag Hne (Hall e He)) in Hp. discriminate. }
    assert (Hsaves : saves (events (main env settings fuel s)) = []).
    { destruct (main_dichotomy env settings s) as [(start & last & Hs & Hl)|Hno].
      - destruct (main_saves env settings fuel s Hs Hl) as (rest & Heq).
        destruct (main_posted env settings fuel s Hs Hl) as (rest' & Heq' & _).
        destruct (saves (events (main env settings fuel s))) as [|t l] eqn:Hsv;
          [reflexivity|].
        assert (Ht : In t (map published
                             (filter (passes env settings start last)
                                (rev (fetched env settings s)))))
          by (rewrite Heq; now left).
        apply in_map_iff in Ht as (e & _ & He).
        apply filter_In in He as [He Hp]. apply in_rev in He.
        apply passes_not_skipped in Hp.
        rewrite (skipped_tag e Htag Hne (Hall e He)) in Hp. discriminate.
      - now apply main_early. }
    split; [exact Hposted|]. split; [exact Hsaves|].
    now rewrite main_file, Hsaves.
Qed.

(** C10 -- The media branch needs an address.  For an entry whose
    media collection under the selected key is not empty and whose first
    candidate has no "url": the image check is applied to the absent
    value and raises [AttributeError]; the iteration of an entry that
    passes the filters ends with that exception, before any publish
    call and any write of the cursor; and a run that fetches such an
    entry does not run to its end. *)
Theorem media_without_url (entry : Entry) (first : Media) (rest : list Media) :
  entry_get entry (media_key entry) = Some (first :: rest) ->
  url first = None ->
  (forall s : State W, select_image env entry s = raise AttributeError s)
  /\ (forall fuel start last client s,
        passes env settings start last entry = true ->
        let o := loop_body env settings fuel start last entry client s in
        result o = Raise AttributeError
        /\ posted (events o) = []
        /\ saves (events o) = []
        /\ last_posted (final o) = last_posted s)
  /\ (forall fuel s,
        In entry (fetched env settings s) ->
        (forall start last,
            start_of_run env settings = Ok start ->
            cursor_of_run env settings s = Ok last ->
            passes env settings start last entry = true) ->
        result (main env settings fuel s) <> Ok tt).
Proof.
  intros He Hu.
  assert (Hsel : forall s : State W,
             select_image env entry s = raise AttributeError s).
  { intros s. unfold select_image. rewrite He, Hu. reflexivity. }
  assert (Hbody : forall fuel start last client s,
             passes env settings start last entry = true ->
             loop_body env settings fuel start last entry client s
             = {| events := [EvPrint ("Preparing " ++ link entry ++ " "
                                      ++ published entry)];
                  final := s;
                  result := Raise AttributeError |}).
  { intros fuel start last client s Hp.
    rewrite body_passing by exact Hp. unfold publish_steps, print.
    rewrite bind_emit.
    destruct (truncate_text_total settings (title entry) (link entry) 300)
      as [message Hm].
    rewrite Hm, bind_lift_ok.
    rewrite (bind_raise_eq _ _ (Hsel s)). reflexivity. }
  split; [exact Hsel|]. split.
  - intros fuel start last client s Hp. cbv zeta. rewrite (Hbody _ _ _ _ _ Hp).
    repeat split.
  - intros fuel s Hin Hpass Hok.
    destruct (main_dichotomy env settings s) as [(start & last & Hs & Hl)|Hno].
    + destruct (main_through_loop env settings fuel s Hs Hl)
        as (_ & _ & _ & _ & Hres).
      destruct (proj1 Hres Hok) as [c Hc]. unfold the_loop in Hc.
      destruct (@loop_ok_each _ env settings fuel start last _ _ _ _ Hc entry)
        as (client' & s' & x & Hx).
      { now apply in_rev in Hin. }
      rewrite (Hbody _ _ _ _ _ (Hpass _ _ Hs Hl)) in Hx. discriminate.
    + now apply main_early in Hok.
Qed.

Lemma passes_spec (start last : option Z) (e : Entry) :
  passes env settings start last e = true <->
  skipped settings e = false
  /\ exists t, stamp env settings (published e) = Some t
               /\ (forall T, last = Some T -> T < t)
               /\ (forall b, start = Some b -> b < t).
Proof.
  unfold passes. rewrite andb_true_iff, negb_true_iff.
  destruct (stamp env settings (published e)) as [t|].
  - rewrite andb_true_iff. unfold after. split.
    + intros (Hs & Hl & Hb). split; [exact Hs|]. exists t. split; [reflexivity|].
      split; intros x ->; lia.
    + intros (Hs & t' & Ht & Hl & Hb). injection Ht as <-. split; [exact Hs|].
      split; [destruct last as [T|] | destruct start as [b|]]; auto;
        apply Z.gtb_lt; auto.
  - split; [intros [_ H]; discriminate|intros (_ & t & H & _); discriminate].
Qed.


Lemma earlier_passing_times (start last : option Z) (l : list Entry) :
  Forall (fun e => passes env settings start last e = true) l ->
  StronglySorted (earlier env settings) l ->
  exists times,
    map (stamp env settings) (map published l) = map Some times
    /\ StronglySorted Z.lt times
    /\ Forall (fun t => forall T, last = Some T -> T < t) times.
Proof.
  induction l as [|e l IH]; intros Hall Hsorted.
  - exists []. repeat constructor.
  - apply Forall_cons_iff in Hall as [He Hall].
    apply StronglySorted_inv in Hsorted as [Hs Hf].
    destruct (IH Hall Hs) as (times & Hmap & Hlt & Hafter).
    apply passes_spec in He as (_ & t & Ht & Hlast & _).
    exists (t :: times). simpl. rewrite Ht, Hmap. split; [reflexivity|].
    split; [|now constructor].
    constructor; [exact Hlt|].
    apply Forall_forall. intros t' Ht'.
    assert (Hin : In (Some t') (map (stamp env settings) (map published l)))
      by (rewrite Hmap; now apply in_map).
    rewrite map_map in Hin. apply in_map_iff in Hin as (e' & He' & Hin').
    rewrite Forall_forall in Hf. specialize (Hf e' Hin').
    unfold earlier in Hf. rewrite Ht, He' in Hf. exact Hf.
Qed.

Lemma passing_sorted (start last : option Z) (feed : list Entry) :
  newest_first env settings feed ->
  StronglySorted (earlier env settings)
    (filter (passes env settings start last) (rev feed)).
Proof.
  intros H. apply sorted_filter. now apply sorted_rev.
Qed.

(** C2 -- Ordering of publishes, as the code has it.  The loop goes
    through the feed in reverse and does not sort it: when the fetched
    entries are listed newest first, with strictly decreasing
    publication times, the publish calls of a run are made in strictly
    increasing order of publication time. *)
Theorem publish_order (fuel : nat) (s : State W) :
  newest_first env settings (fetched env settings s) ->
  StronglySorted (earlier env settings)
    (posted (events (main env settings fuel s))).
Proof.
  intros Hfeed.
  destruct (main_dichotomy env settings s) as [(start & last & Hs & Hl)|Hno].
  - destruct (main_posted env settings fuel s Hs Hl) as (rest & Heq & _).
    pose proof (passing_sorted start last Hfeed) as Hsorted.
    rewrite Heq in Hsorted. now apply sorted_app in Hsorted.
  - destruct (main_early env settings fuel s Hno) as (Hp & _). rewrite Hp.
    constructor.
Qed.

(** C3 -- Cursor discipline, as the code has it.  In every run, a write
    of the cursor file comes right after a publish call that returned,
    made for an entry that passed the filters, and writes the
    [published] string of that entry; and when the fetched entries are
    listed newest first, with strictly decreasing publication times, the
    times written are strictly increasing, the first one strictly after
    the cursor the run started with. *)
Theorem cursor_discipline (fuel : nat) (s : State W) :
  (forall before text later,
      events (main env settings fuel s) = before ++ EvSave text :: later ->
      exists sooner e c call,
        before = sooner ++ [EvSend e c call true]
        /\ text = published e
        /\ skipped settings e = false)
  /\ (forall last,
        cursor_of_run env settings s = Ok last ->
        newest_first env settings (fetched env settings s) ->
        exists times,
          map (stamp env settings) (saves (events (main env settings fuel s)))
          = map Some times
          /\ StronglySorted Z.lt
               match last with
               | Some T => T :: times
               | None => times
               end).
Proof.
  split.
  - intros before text later Heq.
    destruct (disciplined_spec (main_disciplined env settings fuel s) _ _ _ Heq)
      as (sooner & e & c & call & Hb & Ht).
    exists sooner, e, c, call. split; [exact Hb|]. split; [exact Ht|].
    assert (Hin : In (EvSend e c call true) (events (main env settings fuel s))).
    { rewrite Heq, Hb. apply in_or_app. left. apply in_or_app. right. now left. }
    apply main_calls in Hin as (start & last & _ & _ & _ & Hp & _).
    now apply passes_not_skipped in Hp.
  - intros last Hl Hfeed.
    destruct (main_dichotomy env settings s) as [(start & last' & Hs & Hl')|Hno].
    + rewrite Hl in Hl'. injection Hl' as <-.
      destruct (main_saves env settings fuel s Hs Hl) as (rest & Heq).
      destruct (@earlier_passing_times start last
                  (filter (passes env settings start last)
                     (rev (fetched env settings s))))
        as (times & Hmap & Hlt & Hafter).
      { apply Forall_forall. intros e He. now apply filter_In in He. }
      { now apply passing_sorted. }
      rewrite Heq, map_app in Hmap. symmetry in Hmap.
      apply map_eq_app in Hmap as (t1 & t2 & -> & H1 & H2).
      exists t1. split; [now symmetry|].
      apply sorted_app in Hlt as (Hlt & _ & _).
      apply Forall_app in Hafter as [Hafter _].
      destruct last as [T|]; [|exact Hlt].
      constructor; [exact Hlt|].
      apply Forall_forall. intros t Ht. rewrite Forall_forall in Hafter.
      now apply Hafter.
    + destruct (main_early env settings fuel s Hno) as (_ & Hsaves & _).
      rewrite Hsaves. exists []. split; [reflexivity|].
      destruct last; repeat constructor.
Qed.

End Claims.

Lemma truncate_text_overshoots_witness :
  exists b,
    truncate_text Sample.settings (title Sample.long) (link Sample.long) 300 = Ok b
    /\ PyStr.len (build_text b) = 300 + 1.
Proof.
  apply (@truncate_text_overshoots Sample.settings (title Sample.long)
           (link Sample.long) (title Sample.long) 300).
  - reflexivity.
  - vm_compute. discriminate.
  - vm_compute. discriminate.
Defined.

(** C5, as the claim states it, fails: the splitter occurs in the
    description of the entry and not in its title, and the body of the
    message is the title, not the text after the splitter. *)
Lemma splitter_ignores_description :
  let o := main (Sample.env [Sample.marked] Sample.always) Sample.settings 1
             (Sample.start None []) in
  configured (SPLITTER Sample.settings) = Some "|"
  /\ PyStr.contains "|" (description Sample.marked) = true
  /\ item1 (PyStr.split1 (description Sample.marked) "|") = Ok "body"
  /\ calls (events o)
     = [send_post [SegText "T "; SegLink "Read post" "http://x/t"]]
  /\ calls (events o)
     <> [send_post [SegText (PyStr.strip "body" ++ " ");
                    SegLink "Read post" "http://x/t"]].
Proof. vm_compute. repeat split; discriminate. Qed.

Lemma splitter_rule_witness :
  exists body,
    [SegText "News of the day "; SegLink "Read post" "http://x/n"]
    = [SegText (PyStr.take 291 body ++ " ");
       SegLink "Read post" (link Sample.headed)]
    /\ ((exists splitter before rest,
            configured (SPLITTER Sample.settings) = Some splitter
            /\ title Sample.headed = (before ++ splitter ++ rest)%string
            /\ (forall before' rest',
                   title Sample.headed = (before' ++ splitter ++ rest')%string ->
                   (String.length before <= String.length before')%nat)
            /\ body = PyStr.strip rest)
        \/ ((forall splitter,
                configured (SPLITTER Sample.settings) = Some splitter ->
                PyStr.contains splitter (title Sample.headed) = false)
            /\ body = title Sample.headed)).
Proof.
  apply (@splitter_rule _ (Sample.env [Sample.headed] Sample.always)
           Sample.settings 1 (Sample.start None []) Sample.headed
           {| me := Some "me.example" |}
           (send_post [SegText "News of the day ";
                       SegLink "Read post" "http://x/n"]) true).
  vm_compute. auto 10.
Defined.

Lemma get_client_does_not_retry_witness :
  let o := get_client (Sample.env [] Sample.always) Sample.settings 1
             (Sample.start None Sample.limited) in
  result o = Ok {| me := None |}
  /\ logins (events o) = 1%nat
  /\ world (final o) = [LoginOk]
  /\ events o
     = [EvLogin "me.example" "secret"; EvPrint "Rate Limited"; EvSleep 86400;
        EvPrint "RateLimitExceeded"].
Proof.
  apply (@get_client_does_not_retry _ (Sample.env [] Sample.always)
           Sample.settings 0 (Sample.start None Sample.limited)
           "RateLimitExceeded" [LoginOk]).
  reflexivity.
Defined.


Lemma cursor_round_trip_witness :
  let s := Sample.start (Some "old") [] in
  let pub_date :=
    (" " ++ Sample.mon ++ String PyStr.CR (String PyStr.LF ""))%string in
  let saved := save_last_posted_date pub_date s in
  final saved = Sample.start (Some pub_date) []
  /\ read_last_posted_date (final saved) = ret (Some Sample.mon) (final saved)
  /\ PyStr.trimmed Sample.mon = true.
Proof.
  destruct (@cursor_round_trip _ (Sample.env [] Sample.always) Sample.settings
              (" " ++ Sample.mon ++ String PyStr.CR (String PyStr.LF ""))%string
              (Sample.start (Some "old") []) 1)
    as (_ & Hsaved & Hread & _ & Htrimmed & _).
  split; [exact Hsaved|]. split; [exact Hread|exact Htrimmed].
Defined.

(** C8, as the claim states it, fails: a [published] string that holds
    a carriage return, with no white space at its ends, is saved as it
    is, and what is loaded is not that string: the carriage return is
    read as a line feed. *)
Lemma carriage_return_is_not_read_back :
  let pub_date :=
    ("Mon, 01 Jan 2024" ++ String PyStr.CR "10:00:00 +0000")%string in
  let s := Sample.start None [] in
  let saved := save_last_posted_date pub_date s in
  last_posted (final saved) = Some pub_date
  /\ PyStr.strip pub_date = pub_date
  /\ result (read_last_posted_date (final saved))
     = Ok (Some ("Mon, 01 Jan 2024" ++ String PyStr.LF "10:00:00 +0000")%string)
  /\ result (read_last_posted_date (final saved))
     <> Ok (Some (PyStr.strip pub_date)).
Proof.
  cbv zeta. split; [reflexivity|]. split; [reflexivity|].
  split; [reflexivity|]. vm_compute. discriminate.
Qed.


Lemma skip_tag_frame_witness :
  ~ In Sample.tagged
      (posted (events (main (Sample.env [Sample.tagged; Sample.a] Sample.always)
                         Sample.settings 1 (Sample.start None [])))).
Proof.
  exact (proj1 (proj2 (@skip_tag_frame _
                         (Sample.env [Sample.tagged; Sample.a] Sample.always)
                         Sample.settings "#nobot" Sample.tagged
                         eq_refl
                         (fun H : "#nobot" = EmptyString =>
                            eq_ind "#nobot"
                              (fun x => match x with
                                        | EmptyString => False
                                        | String _ _ => True
                                        end) I EmptyString H)
                         eq_refl))
           1%nat (Sample.start None [])).
Defined.

Lemma media_without_url_witness :
  select_image (Sample.env [] Sample.always) Sample.unaddressed
    (Sample.start None [])
  = raise AttributeError (Sample.start None []).
Proof.
  exact (proj1 (@media_without_url _ (Sample.env [] Sample.always)
                  Sample.settings Sample.unaddressed
                  {| url := None |} [] eq_refl eq_refl)
           (Sample.start None [])).
Defined.

Lemma steady_cooperative :
  cooperative (Sample.steady [Sample.c; Sample.b; Sample.a]) Sample.settings
    [Sample.c; Sample.b; Sample.a].
Proof.
  constructor.
  - intros e [<-|[<-|[<-|[]]]] _; vm_compute; discriminate.
  - intros e [<-|[<-|[<-|[]]]]; exact I.
  - intros target w. simpl. unfold Sample.web.
    destruct (target =? "http://x/a.png")%string; [discriminate|].
    destruct (target =? "http://x/gone.PNG")%string; discriminate.
  - intros h p w. simpl. discriminate.
  - intros c call w. reflexivity.
Qed.



Lemma sample_newest_first :
  newest_first (Sample.env [Sample.c; Sample.b; Sample.a] Sample.always)
    Sample.settings [Sample.c; Sample.b; Sample.a].
Proof. repeat constructor. Qed.

(** C2, as the claim states it, fails: the two entries have distinct
    publication times and the feed lists the older one first; the run
    publishes the newer one first. *)
Lemma oldest_first_feed_is_posted_backwards :
  let env := Sample.env [Sample.a; Sample.b] Sample.always in
  let o := main env Sample.settings 1 (Sample.start None []) in
  stamp env Sample.settings (published Sample.a) = Some 1704103200
  /\ stamp env Sample.settings (published Sample.b) = Some 1704189600
  /\ posted (events o) = [Sample.b; Sample.a]
  /\ ~ StronglySorted (earlier env Sample.settings) (posted (events o)).
Proof.
  cbv zeta. split; [reflexivity|]. split; [reflexivity|].
  assert (H : posted (events (main (Sample.env [Sample.a; Sample.b] Sample.always)
                                Sample.settings 1 (Sample.start None [])))
              = [Sample.b; Sample.a]) by (vm_compute; reflexivity).
  split; [exact H|]. rewrite H. intros Hs.
  apply StronglySorted_inv in Hs as [_ Hf].
  apply Forall_inv in Hf. vm_compute in Hf. discriminate.
Qed.

Lemma publish_order_witness :
  StronglySorted
    (earlier (Sample.env [Sample.c; Sample.b; Sample.a] Sample.always)
       Sample.settings)
    (posted (events (main (Sample.env [Sample.c; Sample.b; Sample.a] Sample.always)
                       Sample.settings 1 (Sample.start None [])))).
Proof.
  exact (@publish_order _ (Sample.env [Sample.c; Sample.b; Sample.a] Sample.always)
           Sample.settings 1 (Sample.start None []) sample_newest_first).
Defined.

(** C3, as the claim states it, fails: with the older entry listed
    first, the second write of the run carries an earlier publication
    time than the first, and the cursor file ends on the older time. *)
Lemma oldest_first_feed_moves_cursor_back :
  let env := Sample.env [Sample.a; Sample.b] Sample.always in
  let o := main env Sample.settings 1 (Sample.start None []) in
  saves (events o) = [Sample.tue; Sample.mon]
  /\ map (stamp env Sample.settings) (saves (events o))
     = [Some 1704189600; Some 1704103200]
  /\ ~ StronglySorted Z.lt [1704189600; 1704103200]
  /\ last_posted (final o) = Some Sample.mon.
Proof.
  cbv zeta. split; [vm_compute; reflexivity|]. split; [vm_compute; reflexivity|].
  split; [|vm_compute; reflexivity].
  intros Hs. apply StronglySorted_inv in Hs as [_ Hf].
  apply Forall_inv in Hf. vm_compute in Hf. discriminate.
Qed.

Lemma cursor_discipline_witness :
  exists times,
    map (stamp (Sample.env [Sample.c; Sample.b; Sample.a] Sample.always)
           Sample.settings)
      (saves (events (main (Sample.env [Sample.c; Sample.b; Sample.a] Sample.always)
                        Sample.settings 1 (Sample.start (Some Sample.mon) []))))
    = map Some times
    /\ StronglySorted Z.lt (1704103200 :: times).
Proof.
  exact (proj2 (@cursor_discipline _
                  (Sample.env [Sample.c; Sample.b; Sample.a] Sample.always)
                  Sample.settings 1 (Sample.start (Some Sample.mon) []))
           (Some 1704103200) eq_refl sample_newest_first).
Defined.

(** * The scenarios of the specification *)

(** No cursor, no start date, one entry: one publish call with the text
    "A " and the link "Read post" to the entry, and the cursor file then
    holds the [published] string of the entry. *)
Example first_run :
  let o := main (Sample.env [Sample.a] Sample.always) Sample.settings 1
             (Sample.start None []) in
  calls (events o) = [send_post [SegText "A "; SegLink "Read post" "http://x/a"]]
  /\ last_posted (final o) = Some "Mon, 01 Jan 2024 10:00:00 +0000"
  /\ result o = Ok tt.
Proof. vm_compute. auto. Qed.

(** The only entry carries the skip tag: no publish call, and the
    cursor file stays absent or stays as it was. *)
Example skipped_run :
  let run file :=
    main (Sample.env [Sample.tagged] Sample.always) Sample.settings 1
      (Sample.start file []) in
  calls (events (run None)) = []
  /\ last_posted (final (run None)) = None
  /\ calls (events (run (Some Sample.mon))) = []
  /\ last_posted (final (run (Some Sample.mon))) = Some Sample.mon.
Proof. vm_compute. auto. Qed.

(** Two entries, no cursor: the older one is published and its date
    saved before the newer one is published. *)
Example two_entries :
  let o := main (Sample.env [Sample.b; Sample.a] Sample.always) Sample.settings 1
             (Sample.start None []) in
  filter (fun ev => match ev with
                    | EvSend _ _ _ _ | EvSave _ => true
                    | _ => false
                    end) (events o)
  = [EvSend Sample.a {| me := Some "me.example" |}
       (send_post [SegText "A "; SegLink "Read post" "http://x/a"]) true;
     EvSave Sample.mon;
     EvSend Sample.b {| me := Some "me.example" |}
       (send_post [SegText "B "; SegLink "Read post" "http://x/b"]) true;
     EvSave Sample.tue].
Proof. vm_compute. reflexivity. Qed.

(** A rate-limited login followed by a posting target that refuses
    clients that are not logged in: after the pause the run goes on with
    the client that never logged in, the first publish call raises, and
    the cursor is not written. *)
Example rate_limited_run :
  let o := main (Sample.env [Sample.a] Sample.logged_in) Sample.settings 1
             (Sample.start None Sample.limited) in
  logins (events o) = 1%nat
  /\ sends (events o) = [(Sample.a, false)]
  /\ saves (events o) = []
  /\ result o = Raise PublishError
  /\ world (final o) = [LoginOk].
Proof. vm_compute. auto 6. Qed.

(** A title that reaches the cut is posted with 301 characters. *)
Example long_title_run :
  let o := main (Sample.env [Sample.long] Sample.always) Sample.settings 1
             (Sample.start None []) in
  map (fun call => PyStr.len (build_text (text_of call))) (calls (events o))
  = [301].
Proof. vm_compute. reflexivity. Qed.

(** * Further properties of the code *)

Section Further.

Context {W : Type}.
Variable env : Env W.
Variable settings : Settings.

(** ** Session acquisition (lines 83-97) *)

(** X1 -- With fuel for one turn of its loop, [get_client] makes exactly
    one login attempt whatever [login] does: a login that returns gives
    the client logged in under the configured handle, with no print and
    no pause; a [RequestException] gives the client that is not logged
    in, with a pause of 86400 seconds exactly when the message contains
    "RateLimitExceeded"; any other exception is not caught.  The cursor
    file is not touched. *)
Theorem get_client_attempts_once (fuel : nat) (s : State W) :
  let o := get_client env settings (S fuel) s in
  let answer :=
    client_login env (HANDLE settings) (PASSWORD settings) (world s) in
  logins (events o) = 1%nat
  /\ world (final o) = snd answer
  /\ last_posted (final o) = last_posted s
  /\ match fst answer with
     | LoginOk =>
         result o = Ok {| me := Some (HANDLE settings) |}
         /\ events o = [EvLogin (HANDLE settings) (PASSWORD settings)]
     | LoginRequestException msg =>
         result o = Ok {| me := None |}
         /\ sleeps (events o)
            = (if PyStr.contains "RateLimitExceeded" msg then [86400] else [])
     | LoginOtherError =>
         result o = Raise LoginError
         /\ events o = [EvLogin (HANDLE settings) (PASSWORD settings)]
     end.
Proof.
  cbv zeta. unfold get_client, bind. rewrite while_once.
  unfold one_turn. rewrite bind_emit, bind_call_world.
  destruct (client_login env (HANDLE settings) (PASSWORD settings) (world s))
    as [[|msg|] w]; cbn [fst snd events final result].
  - cbn. auto.
  - destruct (PyStr.contains "RateLimitExceeded" msg); cbn; auto.
  - cbn. auto.
Qed.

(** ** The cursor file and the dates of the run (lines 32-41, 105-123) *)

Lemma strip_idempotent (text : string) :
  PyStr.strip (PyStr.strip text) = PyStr.strip text.
Proof.
  apply PyStrFacts.strip_trimmed.
  now destruct (PyStrFacts.strip_spec text) as (_ & _ & _ & _ & _ & H).
Qed.

Lemma rstrip_all_space (text : string) :
  PyStr.all_space text = true -> PyStr.rstrip text = EmptyString.
Proof.
  induction text as [|c text IH]; [reflexivity|]. simpl.
  intros H. apply andb_true_iff in H as [Hc Ht].
  now rewrite (IH Ht), Hc.
Qed.

Lemma strip_all_space (text : string) :
  PyStr.all_space text = true -> PyStr.strip text = EmptyString.
Proof.
  unfold PyStr.strip. intros H.
  assert (Hl : PyStr.lstrip text = EmptyString).
  { induction text as [|c text IH]; [reflexivity|]. simpl in *.
    apply andb_true_iff in H as [Hc Ht]. rewrite Hc. now apply IH. }
  now rewrite Hl.
Qed.

(** X2 -- What a run reads from the cursor file can be written back
    without change: for any content of the file, [read_last_posted_date]
    returns the content with its line ends translated and its ends
    stripped, and saving that text and reading again returns that same
    text (it holds no carriage return, and stripping twice is stripping
    once). *)
Theorem cursor_reload_stable (text : string) (w : W) :
  let s := {| world := w; last_posted := Some text |} in
  let first_read := PyStr.strip (PyStr.universal_newlines text) in
  read_last_posted_date s = ret (Some first_read) s
  /\ PyStr.has_cr first_read = false
  /\ read_last_posted_date (final (save_last_posted_date first_read s))
     = ret (Some first_read) (final (save_last_posted_date first_read s)).
Proof.
  cbv zeta. split; [reflexivity|].
  assert (Hcr : PyStr.has_cr (PyStr.strip (PyStr.universal_newlines text)) = false)
    by apply PyStrFacts.has_cr_strip, PyStrFacts.universal_newlines_no_cr.
  split; [exact Hcr|].
  rewrite read_last_posted_date_eq.
  cbn [save_last_posted_date write_file final last_posted loaded option_map].
  now rewrite (PyStrFacts.universal_newlines_plain _ Hcr), strip_idempotent.
Qed.

(** X3 -- A configured start date that does not parse stops the run
    with [ValueError] right after its first print: the feed is not
    fetched, nothing is published and the cursor file is not touched. *)
Theorem unparsable_start_date (fuel : nat) (s : State W) :
  PyStr.truthy (START_POST_DATE settings) = true ->
  strptime env (START_POST_DATE settings) (DATE_FORMAT settings) = None ->
  main env settings fuel s
  = {| events := [EvPrint ("Fetching " ++ FEED_URL settings)];
       final := s;
       result := Raise ValueError |}.
Proof.
  intros Htruthy Hparse. unfold main, print. rewrite bind_emit.
  unfold optional_date, parse_date. rewrite Htruthy, Hparse.
  now rewrite bind_lift_raise.
Qed.

(** X4 -- A cursor file whose content as it is read (line ends
    translated, ends stripped) is not empty and does not parse stops
    the run with [ValueError] once the feed is fetched:
    no entry is looked at, nothing is published and the file keeps its
    content. *)
Theorem unparsable_cursor (fuel : nat) (s : State W) (text : string)
    (start : option Z) :
  start_of_run env settings = Ok start ->
  last_posted s = Some text ->
  PyStr.truthy (PyStr.strip (PyStr.universal_newlines text)) = true ->
  strptime env (PyStr.strip (PyStr.universal_newlines text))
    (DATE_FORMAT settings) = None ->
  main env settings fuel s
  = {| events := [EvPrint ("Fetching " ++ FEED_URL settings)];
       final := at_loop env settings s;
       result := Raise ValueError |}.
Proof.
  intros Hstart Hfile Htruthy Hparse. unfold main, print. rewrite bind_emit.
  fold (start_of_run env settings). rewrite Hstart, bind_lift_ok.
  rewrite bind_call_world, bind_read_last_posted_date.
  cbn [last_posted]. rewrite Hfile. cbn [loaded option_map].
  unfold optional_date, parse_date. rewrite Htruthy, Hparse.
  rewrite bind_lift_raise. unfold at_loop. now rewrite Hfile.
Qed.

(** X5 -- A cursor file that holds only white space counts as no
    cursor: in a run in which nothing raises, every fetched entry that
    is not skipped and is after the start date is published, whatever it
    was published before. *)
Theorem blank_cursor (fuel : nat) (s : State W) (text : string)
    (start : option Z) :
  start_of_run env settings = Ok start ->
  last_posted s = Some text ->
  PyStr.all_space text = true ->
  cooperative env settings (fetched env settings s) ->
  fuel <> O ->
  cursor_of_run env settings s = Ok None
  /\ result (main env settings fuel s) = Ok tt
  /\ posted (events (main env settings fuel s))
     = filter (passes env settings start None) (rev (fetched env settings s)).
Proof.
  intros Hstart Hfile Hblank Hco Hfuel.
  assert (Hcursor : cursor_of_run env settings s = Ok None).
  { unfold cursor_of_run. rewrite Hfile. cbn [loaded option_map].
    now rewrite (strip_all_space _
                   (PyStrFacts.universal_newlines_all_space _ Hblank)). }
  pose proof (@main_returns _ env settings fuel s start None
                Hstart Hcursor Hco Hfuel) as Hok.
  destruct (main_posted env settings fuel s Hstart Hcursor) as (rest & Heq & Hrest).
  rewrite (Hrest Hok), app_nil_r in Heq. auto.
Qed.

(** ** The message (lines 44-57) *)

Lemma cut_prefix (body : string) (limit : Z) :
  exists dropped, body = (cut body limit ++ dropped)%string.
Proof.
  unfold cut.
  destruct (PyStr.len body >? limit - PyStr.len link_text).
  - unfold PyStr.slice_to.
    destruct (limit - PyStr.len link_text <? 0); eexists;
      symmetry; apply PyStrFacts.take_drop.
  - exists EmptyString. now rewrite PyStrFacts.append_nil_r.
Qed.

Lemma len_cut (body : string) (limit : Z) :
  PyStr.len (cut body limit)
  = if limit - PyStr.len link_text <? 0
    then Z.max 0 (PyStr.len body + (limit - PyStr.len link_text))
    else Z.min (PyStr.len body) (limit - PyStr.len link_text).
Proof.
  unfold cut.
  destruct (PyStr.len body >? limit - PyStr.len link_text) eqn:Hgt.
  - unfold PyStr.slice_to.
    destruct (limit - PyStr.len link_text <? 0) eqn:Hneg.
    + unfold PyStr.len in *. rewrite PyStrFacts.length_take. lia.
    + unfold PyStr.len in *. rewrite PyStrFacts.length_take. lia.
  - destruct (limit - PyStr.len link_text <? 0) eqn:Hneg;
      unfold PyStr.len in *; lia.
Qed.

(** X6 -- [truncate_text] always returns a message (the item [1] of the
    split exists whenever the splitter occurs), made of a text and a
    link labelled "Read post" to the given link.  The text is a prefix
    of the cleaned-up body followed by a space; for a limit of at least
    [len("Read post")] the prefix has [min(len(body), limit - 9)]
    characters, and for a smaller limit the slice bound is negative and
    the prefix is the body without its last [9 - limit] characters. *)
Theorem truncate_text_always (description link : string) (limit : Z) :
  exists body kept dropped,
    cleanup settings description = Ok body
    /\ truncate_text settings description link limit
       = Ok [SegText (kept ++ " "); SegLink "Read post" link]
    /\ body = (kept ++ dropped)%string
    /\ PyStr.len kept
       = if limit - 9 <? 0
         then Z.max 0 (PyStr.len body - (9 - limit))
         else Z.min (PyStr.len body) (limit - 9).
Proof.
  destruct (cleanup_total settings description) as [body Hbody].
  destruct (cut_prefix body limit) as [dropped Hdropped].
  exists body, (cut body limit), dropped.
  split; [exact Hbody|]. split; [|split; [exact Hdropped|]].
  - unfold truncate_text. now rewrite Hbody.
  - rewrite len_cut, len_link_text.
    destruct (limit - 9 <? 0); [f_equal; lia|reflexivity].
Qed.

(** ** The media of an entry (lines 142-152) *)

(** X7 -- The key "enclosures" shadows "media_content": when an entry
    has "enclosures", the image is chosen from that collection alone,
    whatever is under "media_content", and an empty "enclosures" gives
    no image and no fetch. *)
Theorem enclosures_shadow_media_content (entry : Entry) (l : list Media) :
  enclosures entry = Some l ->
  media_key entry = "enclosures"
  /\ (forall m (s : State W),
        select_image env (set_media_content entry m) s
        = select_image env entry s)
  /\ (l = [] -> forall s : State W, select_image env entry s = ret None s).
Proof.
  intros He.
  assert (Hkey : forall m, media_key (set_media_content entry m) = "enclosures").
  { intros m. unfold media_key, entry_has, entry_get. cbn. now rewrite He. }
  assert (Hkey' : media_key entry = "enclosures").
  { unfold media_key, entry_has, entry_get. cbn. now rewrite He. }
  split; [exact Hkey'|]. split.
  - intros m s. unfold select_image. rewrite Hkey, Hkey'.
    unfold entry_get. cbn. reflexivity.
  - intros -> s. unfold select_image. rewrite Hkey'. unfold entry_get. cbn.
    now rewrite He.
Qed.

(** ** More facts about the monad *)

Lemma bind_ok {A B} (m : M W A) (f : A -> M W B) (a : A) (s : State W) :
  result (m s) = Ok a ->
  bind m f s
  = {| events := events (m s) ++ events (f a (final (m s)));
       final := final (f a (final (m s)));
       result := result (f a (final (m s))) |}.
Proof. intros H. unfold bind. now rewrite H. Qed.

Lemma bind_stops {A B} (m : M W A) (f : A -> M W B) (e : Exc) (s : State W) :
  result (m s) = Raise e ->
  bind m f s
  = {| events := events (m s); final := final (m s); result := Raise e |}.
Proof. intros H. unfold bind. now rewrite H. Qed.

Lemma bind_cases {A B} (m : M W A) (f : A -> M W B) (s : State W) :
  (exists a,
      result (m s) = Ok a
      /\ bind m f s
         = {| events := events (m s) ++ events (f a (final (m s)));
              final := final (f a (final (m s)));
              result := result (f a (final (m s))) |})
  \/ ((forall a, result (m s) <> Ok a)
      /\ events (bind m f s) = events (m s)
      /\ (forall b, result (bind m f s) <> Ok b)).
Proof.
  unfold bind. destruct (result (m s)) as [a| |].
  - left. now exists a.
  - right. repeat split; discriminate.
  - right. repeat split; discriminate.
Qed.

Lemma bind_assoc {A B C} (m : M W A) (f : A -> M W B) (g : B -> M W C)
    (s : State W) :
  bind (bind m f) g s = bind m (fun a => bind (f a) g) s.
Proof.
  unfold bind. destruct (result (m s)) as [a| |]; cbn [result final events];
    try reflexivity.
  destruct (result (f a (final (m s)))) as [b| |]; cbn [result final events];
    try reflexivity.
  now rewrite app_assoc.
Qed.

Lemma bind_ext {A B} (m : M W A) (f g : A -> M W B) (s : State W) :
  (forall a s', f a s' = g a s') -> bind m f s = bind m g s.
Proof.
  intros H. unfold bind. destruct (result (m s)); try reflexivity.
  now rewrite H.
Qed.

(** The loop over a list in two parts. *)
Lemma loop_app (body : Entry -> option Client -> M W (option Client))
    (l1 l2 : list Entry) (client : option Client) (s : State W) :
  for_entries body (l1 ++ l2) client s
  = bind (for_entries body l1 client) (fun c => for_entries body l2 c) s.
Proof.
  revert client s; induction l1 as [|x l1 IH]; intros client s.
  - cbn [app for_entries]. symmetry. now apply bind_ret_eq.
  - cbn [app for_entries]. rewrite bind_assoc. apply bind_ext.
    intros a s'. apply IH.
Qed.

Lemma calls_app (a b : list Event) : calls (a ++ b) = calls a ++ calls b.
Proof. unfold calls. apply flat_map_app. Qed.

Lemma calls_silent (tr : list Event) : Forall silent tr -> calls tr = [].
Proof.
  induction 1 as [|ev tr Hev _ IH]; [reflexivity|].
  destruct ev; simpl in *; auto; contradiction.
Qed.

(** ** Failures inside an iteration (lines 60-64, 132, 147-152) *)

(** X8 -- A fetch that raises is not caught: for an entry that passes
    the filters and whose first media candidate is a picture, when
    [httpx.get] raises, the iteration ends with that exception after the
    one fetch, with no publish call and no write of the cursor. *)
Theorem transport_error_stops_iteration (fuel : nat) (start last : option Z)
    (entry : Entry) (first : Media) (rest : list Media) (u : string)
    (client : option Client) (s : State W) :
  passes env settings start last entry = true ->
  entry_get entry (media_key entry) = Some (first :: rest) ->
  url first = Some u ->
  PyStr.endswith_any (PyStr.lower u) image_suffixes = true ->
  fst (httpx_get env u (world s)) = None ->
  let o := loop_body env settings fuel start last entry client s in
  result o = Raise TransportError
  /\ fetches (events o) = [u]
  /\ sends (events o) = []
  /\ saves (events o) = []
  /\ last_posted (final o) = last_posted s.
Proof.
  intros Hp He Hu Himg Hget. cbv zeta.
  rewrite body_passing by exact Hp. unfold publish_steps, print.
  rewrite bind_emit.
  destruct (truncate_text_total settings (title entry) (link entry) 300)
    as [message Hm].
  rewrite Hm, bind_lift_ok.
  assert (Hsel : select_image env entry s
                 = {| events := [EvPrint ("downloading image: " ++ u); EvGet u];
                      final := {| world := snd (httpx_get env u (world s));
                                  last_posted := last_posted s |};
                      result := Raise TransportError |}).
  { rewrite (@select_image_eq _ env entry first rest u s He Hu), Himg.
    unfold print. rewrite bind_emit, download_image_eq. cbn [events final result].
    now rewrite Hget. }
  rewrite (@bind_stops _ _ (select_image env entry) _ TransportError s)
    by now rewrite Hsel.
  rewrite Hsel. cbn. auto.
Qed.

(** X9 -- A date that does not parse blocks the entries listed before
    it: when a fetched entry that is not skipped has a [published]
    string that does not parse, the run does not go to its end, and the
    only entries it can publish are those listed after that entry in the
    feed (the older ones, in a feed listed newest first). *)
Theorem unparsable_entry_blocks_newer (fuel : nat) (s : State W)
    (newer older : list Entry) (entry : Entry) :
  fetched env settings s = newer ++ entry :: older ->
  skipped settings entry = false ->
  stamp env settings (published entry) = None ->
  result (main env settings fuel s) <> Ok tt
  /\ (forall e, In e (posted (events (main env settings fuel s))) -> In e older).
Proof.
  intros Hfeed Hsk Hdate.
  destruct (main_dichotomy env settings s) as [(start & last & Hs & Hl)|Hno].
  - destruct (main_through_loop env settings fuel s Hs Hl)
      as (tail & Htail & Hev & _ & Hres).
    assert (Hloop : the_loop env settings fuel start last s
                    = bind (for_entries (loop_body env settings fuel start last)
                              (rev older) None)
                        (fun _ => raise ValueError) (at_loop env settings s)).
    { unfold the_loop. rewrite Hfeed, rev_app_distr. cbn [rev].
      rewrite <- app_assoc, loop_app. apply bind_ext. intros c s'.
      cbn [app for_entries]. apply bind_raise_eq.
      now apply body_unparsed. }
    split.
    + intros Hok. destruct (proj1 Hres Hok) as [c Hc].
      rewrite Hloop in Hc. unfold bind in Hc.
      destruct (result (for_entries (loop_body env settings fuel start last)
                          (rev older) None (at_loop env settings s)));
        discriminate.
    + intros e He. rewrite Hev in He.
      change (EvPrint ("Fetching " ++ FEED_URL settings)
                :: events (the_loop env settings fuel start last s) ++ tail)
        with ([EvPrint ("Fetching " ++ FEED_URL settings)]
                ++ events (the_loop env settings fuel start last s) ++ tail) in He.
      rewrite !posted_app, (posted_silent Htail), app_nil_r in He.
      cbn [posted sends flat_map map app] in He.
      assert (Hsub : posted (events (the_loop env settings fuel start last s))
                     = posted (events (for_entries
                                         (loop_body env settings fuel start last)
                                         (rev older) None
                                         (at_loop env settings s)))).
      { rewrite Hloop. unfold bind.
        destruct (result (for_entries (loop_body env settings fuel start last)
                            (rev older) None (at_loop env settings s)));
          cbn [events raise]; now rewrite ?app_nil_r. }
      fold (posted (events (the_loop env settings fuel start last s))) in He.
      rewrite Hsub in He.
      destruct (loop_posted env settings fuel start last (rev older) None
                  (at_loop env settings s)) as (rest & Heq & _).
      assert (Hin : In e (filter (passes env settings start last) (rev older)))
        by (rewrite Heq; apply in_or_app; now left).
      apply filter_In in Hin as [Hin _]. now apply in_rev.
  - destruct (main_early env settings fuel s Hno) as (Hp & _ & _ & _ & Hres).
    split; [exact Hres|]. intros e He. rewrite Hp in He. destruct He.
Qed.

(** ** The publish call (lines 71-80, 155-156) *)

Lemma calls_bind_quiet {A B} (m : M W A) (f : A -> M W B) (s : State W) :
  quiet m ->
  calls (events (bind m f s))
  = match result (m s) with
    | Ok a => calls (events (f a (final (m s))))
    | _ => []
    end.
Proof.
  intros Hq. destruct (Hq s) as [Hs _]. unfold bind.
  destruct (result (m s)); cbn [events];
    now rewrite ?calls_app, (calls_silent Hs).
Qed.

Lemma calls_publish (entry : Entry) (c : Client) (message : TextBuilder)
    (image : option string) (s : State W) :
  calls (events ((post_to_bluesky env entry c message image ;;
                  save_last_posted_date (published entry) ;;
                  print "saved last posted date" ;;
                  ret (Some c)) s))
  = [chosen_call message image].
Proof.
  unfold bind, post_to_bluesky. fold (chosen_call message image).
  destruct (client_send env c (chosen_call message image) (world s))
    as [[|] w]; reflexivity.
Qed.

(** X10 -- The picture is attached when it has content: for an entry
    that passes the filters and whose first media candidate is a
    picture, when the fetch answers with status 200 and [login] does not
    raise, the iteration makes one publish call, with the message built
    from the title: [send_image] with the bytes fetched and the fixed
    alternative text when the bytes are not empty, [send_post] when the
    response is empty. *)
Theorem image_is_attached (fuel : nat) (start last : option Z)
    (entry : Entry) (first : Media) (rest : list Media) (u : string)
    (client : option Client) (s : State W) (response : Response) :
  passes env settings start last entry = true ->
  entry_get entry (media_key entry) = Some (first :: rest) ->
  url first = Some u ->
  PyStr.endswith_any (PyStr.lower u) image_suffixes = true ->
  fst (httpx_get env u (world s)) = Some response ->
  status_code response = 200 ->
  fuel <> O ->
  (forall h p w, fst (client_login env h p w) <> LoginOtherError) ->
  exists message,
    truncate_text settings (title entry) (link entry) 300 = Ok message
    /\ calls (events (loop_body env settings fuel start last entry client s))
       = [if PyStr.truthy (content response)
          then send_image message (content response)
                 "Image coming from the Fediverse"
          else send_post message].
Proof.
  intros Hp He Hu Himg Hget Hstatus Hfuel Hlogin.
  destruct (truncate_text_total settings (title entry) (link entry) 300)
    as [message Hm].
  exists message. split; [exact Hm|].
  rewrite body_passing by exact Hp. unfold publish_steps.
  rewrite calls_bind_quiet by (apply quiet_emit; exact I).
  cbn [print emit result final]. rewrite Hm.
  rewrite calls_bind_quiet by apply quiet_lift. cbn [lift result final].
  rewrite calls_bind_quiet by apply quiet_select_image.
  rewrite (@select_image_eq _ env entry first rest u s He Hu), Himg.
  unfold print at 1. rewrite bind_emit, download_image_eq.
  cbn [result final]. rewrite Hget, Hstatus. cbn [Z.eqb Pos.eqb].
  rewrite calls_bind_quiet by (apply quiet_emit; exact I).
  cbn [print emit result final].
  rewrite calls_bind_quiet
    by (destruct client; [apply quiet_ret | apply quiet_get_client]).
  match goal with
  | |- context [result (?m ?s1)] =>
      assert (Hc : exists c, result (m s1) = Ok c)
  end.
  { destruct client as [c|]; [cbn; eauto|].
    destruct fuel; [congruence|]. now apply returns_get_client. }
  destruct Hc as [c Hc]. rewrite Hc.
  now rewrite calls_publish.
Qed.

(** ** Publish calls and cursor writes of a run (lines 126-160) *)

Lemma succeeded_app (a b : list Event) :
  succeeded (a ++ b) = succeeded a ++ succeeded b.
Proof. unfold succeeded. now rewrite sends_app, filter_app, map_app. Qed.

Lemma succeeded_silent (tr : list Event) : Forall silent tr -> succeeded tr = [].
Proof. intros H. unfold succeeded. now rewrite (sends_silent H). Qed.

(** The loop: the entries published are those whose call returned,
    followed by at most one whose call raised, which ends the loop; the
    cursor writes are the [published] strings of the former. *)
Lemma loop_successes (fuel : nat) (start last : option Z)
    (entries : list Entry) (client : option Client) (s : State W) :
  let o := for_entries (loop_body env settings fuel start last)
             entries client s in
  saves (events o) = map published (succeeded (events o))
  /\ exists failed,
       posted (events o) = succeeded (events o) ++ failed
       /\ (failed = []
           \/ exists e, failed = [e] /\ result o = Raise PublishError).
Proof.
  cbv zeta. revert client s; induction entries as [|e es IH]; intros client s.
  - split; [reflexivity|]. exists []. auto.
  - destruct (@loop_unrolled _ env settings fuel start last e es client s)
      as [Hp Ho|Hp Ho|pre c call s' o' Hp Hpre Ht Hfile Ho' Hev Hfin Hres
         |pre c call Hp Hpre Ht Hev Hres Hfin|Hp Hsil Hres Hfin].
    + rewrite Ho. apply IH.
    + rewrite Ho. split; [reflexivity|]. exists []. auto.
    + subst o'. destruct (IH (Some c) s') as (Hsaves & failed & Hposted & Hfailed).
      rewrite Hev, !saves_app, !succeeded_app, !posted_app,
        (saves_silent Hpre), (succeeded_silent Hpre), (posted_silent Hpre).
      cbn [app].
      change (saves [EvSend e c call true; EvSave (published e);
                     EvPrint "saved last posted date"])
        with [published e].
      change (succeeded [EvSend e c call true; EvSave (published e);
                         EvPrint "saved last posted date"])
        with [e].
      change (posted [EvSend e c call true; EvSave (published e);
                      EvPrint "saved last posted date"])
        with [e].
      rewrite Hres. split.
      * cbn [app map]. now rewrite Hsaves.
      * exists failed. split; [|exact Hfailed]. cbn [app]. now rewrite Hposted.
    + rewrite Hev, Hres, !saves_app, !succeeded_app, !posted_app,
        (saves_silent Hpre), (succeeded_silent Hpre), (posted_silent Hpre).
      split; [reflexivity|]. exists [e]. split; [reflexivity|]. right. eauto.
    + rewrite (saves_silent Hsil), (succeeded_silent Hsil), (posted_silent Hsil).
      split; [reflexivity|]. exists []. auto.
Qed.

(** [main] in terms of its loop, when the two dates parse. *)
Lemma main_eq (fuel : nat) (s : State W) (start last : option Z) :
  start_of_run env settings = Ok start ->
  cursor_of_run env settings s = Ok last ->
  main env settings fuel s
  = {| events :=
         EvPrint ("Fetching " ++ FEED_URL settings)
           :: events (the_loop env settings fuel start last s)
           ++ match result (the_loop env settings fuel start last s) with
              | Ok _ => [EvPrint "all done with work"]
              | _ => []
              end;
       final := final (the_loop env settings fuel start last s);
       result := match result (the_loop env settings fuel start last s) with
                 | Ok _ => Ok tt
                 | Raise e => Raise e
                 | NoFuel => NoFuel
                 end |}.
Proof.
  intros Hs Hl. unfold main, print. rewrite bind_emit.
  fold (start_of_run env settings).
  rewrite Hs, bind_lift_ok, bind_call_world, bind_read_last_posted_date.
  cbn [last_posted]. fold (cursor_of_run env settings s).
  rewrite Hl, bind_lift_ok. unfold the_loop, fetched, at_loop, bind.
  destruct (result (for_entries (loop_body env settings fuel start last) _ _ _));
    cbn [events final result emit]; now rewrite ?app_nil_r.
Qed.

(** [main] when one of the two dates does not parse. *)
Lemma main_eq_early (fuel : nat) (s : State W) :
  (forall start last, start_of_run env settings = Ok start ->
                      cursor_of_run env settings s = Ok last -> False) ->
  events (main env settings fuel s)
  = [EvPrint ("Fetching " ++ FEED_URL settings)].
Proof.
  intros Hno. unfold main, print. rewrite bind_emit. cbn [events]. f_equal.
  fold (start_of_run env settings).
  destruct (start_of_run env settings) as [start| |] eqn:Hs.
  2,3: match goal with
       | |- context [bind (lift ?r) ?f ?s1] =>
           now destruct (@bind_lift_stop _ _ _ r f s1) as (He & _)
       end.
  rewrite bind_lift_ok, bind_call_world, bind_read_last_posted_date.
  cbn [last_posted]. fold (cursor_of_run env settings s).
  destruct (cursor_of_run env settings s) as [last| |] eqn:Hl.
  1: now destruct (Hno start last).
  all: match goal with
       | |- context [bind (lift ?r) ?f ?s1] =>
           now destruct (@bind_lift_stop _ _ _ r f s1) as (He & _)
       end.
Qed.

(** X11 -- In every run the cursor writes are exactly the [published]
    strings of the entries whose publish call returned, in the same
    order; the entries published are those, followed by at most one
    entry whose publish call raised, in which case the run ends with
    that exception; and the cursor file ends up holding the [published]
    string of the last entry whose publish call returned, or its
    content of before the run when there is none. *)
Theorem writes_follow_successes (fuel : nat) (s : State W) :
  let o := main env settings fuel s in
  saves (events o) = map published (succeeded (events o))
  /\ (exists failed,
        posted (events o) = succeeded (events o) ++ failed
        /\ (failed = []
            \/ exists e, failed = [e] /\ result o = Raise PublishError))
  /\ last_posted (final o)
     = last (map Some (map published (succeeded (events o)))) (last_posted s).
Proof.
  cbv zeta.
  assert (H : saves (events (main env settings fuel s))
              = map published (succeeded (events (main env settings fuel s)))
              /\ exists failed,
                   posted (events (main env settings fuel s))
                   = succeeded (events (main env settings fuel s)) ++ failed
                   /\ (failed = []
                       \/ exists e, failed = [e]
                                    /\ result (main env settings fuel s)
                                       = Raise PublishError)).
  { destruct (main_dichotomy env settings s) as [(start & last & Hs & Hl)|Hno].
    - rewrite (main_eq fuel s Hs Hl). cbn [events result].
      destruct (loop_successes fuel start last
                  (rev (fetched env settings s)) None (at_loop env settings s))
        as (Hsaves & failed & Hposted & Hfailed).
      fold (the_loop env settings fuel start last s) in Hsaves, Hposted, Hfailed.
      assert (Htail : Forall silent
                        match result (the_loop env settings fuel start last s) with
                        | Ok _ => [EvPrint "all done with work"]
                        | _ => []
                        end)
        by (destruct (result (the_loop env settings fuel start last s));
            repeat constructor).
      change (EvPrint ("Fetching " ++ FEED_URL settings)
                :: events (the_loop env settings fuel start last s) ++ ?x)
        with ([EvPrint ("Fetching " ++ FEED_URL settings)]
                ++ events (the_loop env settings fuel start last s) ++ x).
      rewrite !saves_app, !succeeded_app, !posted_app,
        (saves_silent Htail), (succeeded_silent Htail), (posted_silent Htail),
        !app_nil_r.
      cbn [app saves succeeded posted sends flat_map filter map].
      split; [exact Hsaves|]. exists failed. split; [exact Hposted|].
      destruct Hfailed as [->|(e & -> & Hraise)]; [now left|right].
      exists e. split; [reflexivity|]. now rewrite Hraise.
    - destruct (main_early env settings fuel s Hno) as (Hp & Hsv & Hsil & _).
      rewrite Hp, Hsv, (succeeded_silent Hsil). split; [reflexivity|].
      exists []. auto. }
  destruct H as (Hsaves & Hposted). split; [exact Hsaves|].
  split; [exact Hposted|]. now rewrite main_file, Hsaves.
Qed.

(** ** The session of a run (lines 112, 155) *)

Lemma logins_app (a b : list Event) : logins (a ++ b) = (logins a + logins b)%nat.
Proof. unfold logins. now rewrite filter_app, length_app. Qed.

Lemma logins_free (tr : list Event) : Forall login_free tr -> logins tr = O.
Proof.
  induction 1 as [|ev tr Hev _ IH]; [reflexivity|].
  destruct ev; simpl in *; auto; contradiction.
Qed.

Lemma chatter_free (c : Client) (tr : list Event) :
  Forall chatter tr -> Forall (fun ev => login_free ev /\ sent_with c ev) tr.
Proof.
  intros H. eapply Forall_impl; [|exact H].
  intros [] Hev; simpl in *; auto; contradiction.
Qed.

Lemma silent_sent_with (c : Client) (tr : list Event) :
  Forall silent tr -> Forall (sent_with c) tr.
Proof.
  intros H. eapply Forall_impl; [|exact H].
  intros [] Hev; simpl in *; auto; contradiction.
Qed.

Lemma chatter_select_image (entry : Entry) (s : State W) :
  Forall chatter (events (select_image env entry s)).
Proof.
  unfold select_image.
  destruct (entry_get entry (media_key entry)) as [[|first rest]|];
    try constructor.
  destruct (url first) as [u|]; [|constructor].
  cbn [is_image]. rewrite bind_lift_ok.
  destruct (PyStr.endswith_any (PyStr.lower u) image_suffixes); [|constructor].
  unfold print. rewrite bind_emit, download_image_eq. cbn [events].
  repeat constructor.
Qed.

Lemma get_client_logins (fuel : nat) (s : State W) :
  (logins (events (get_client env settings fuel s)) <= 1)%nat.
Proof.
  destruct fuel as [|fuel]; [cbn; lia|].
  unfold get_client, bind. rewrite while_once.
  unfold one_turn. rewrite bind_emit, bind_call_world.
  destruct (client_login env (HANDLE settings) (PASSWORD settings) (world s))
    as [[|msg|] w]; cbn [fst snd events final result].
  - cbn. lia.
  - destruct (PyStr.contains "RateLimitExceeded" msg); cbn; lia.
  - cbn. lia.
Qed.

(** The end of the body with the client [c]. *)
Lemma tail_session (entry : Entry) (c : Client) (message : TextBuilder)
    (image : option string) (s : State W) :
  let o := (post_to_bluesky env entry c message image ;;
            save_last_posted_date (published entry) ;;
            print "saved last posted date" ;;
            ret (Some c)) s in
  Forall (fun ev => login_free ev /\ sent_with c ev) (events o)
  /\ (forall x, result o = Ok x -> x = Some c).
Proof.
  cbv zeta. unfold bind, post_to_bluesky.
  match goal with
  | |- context [client_send env c ?call (world s)] =>
      destruct (client_send env c call (world s)) as [[|] w]
  end; cbn.
  - split; [repeat constructor|]. intros x H. now injection H.
  - split; [repeat constructor|]. discriminate.
Qed.

Lemma session_bind {A} (m : M W A) (f : A -> M W (option Client))
    (c : Client) (s : State W) :
  Forall chatter (events (m s)) ->
  (forall a s',
      Forall (fun ev => login_free ev /\ sent_with c ev) (events (f a s'))
      /\ (forall x, result (f a s') = Ok x -> x = Some c)) ->
  Forall (fun ev => login_free ev /\ sent_with c ev) (events (bind m f s))
  /\ (forall x, result (bind m f s) = Ok x -> x = Some c).
Proof.
  intros Hm Hf. unfold bind.
  destruct (result (m s)) as [a| |]; cbn [events result].
  - destruct (Hf a (final (m s))) as [He Hr]. split; [|exact Hr].
    apply Forall_app. split; [now apply chatter_free|exact He].
  - split; [now apply chatter_free|discriminate].
  - split; [now apply chatter_free|discriminate].
Qed.

(** With a client at hand, the rest of the loop makes no login attempt,
    makes its publish calls with that client and hands it on. *)
Lemma body_session (fuel : nat) (start last : option Z) (entry : Entry)
    (c : Client) (s : State W) :
  let o := loop_body env settings fuel start last entry (Some c) s in
  Forall (fun ev => login_free ev /\ sent_with c ev) (events o)
  /\ (forall x, result o = Ok x -> x = Some c).
Proof.
  cbv zeta. destruct (passes env settings start last entry) eqn:Hp.
  - rewrite body_passing by exact Hp. unfold publish_steps, print.
    apply session_bind; [repeat constructor|]. intros _ s1.
    apply session_bind; [constructor|]. intros message s2.
    apply session_bind; [apply chatter_select_image|]. intros image s3.
    apply session_bind; [repeat constructor|]. intros _ s4.
    rewrite bind_ret_eq with (a := c) by reflexivity.
    apply tail_session.
  - destruct (body_rejects env settings fuel start last entry (Some c) s Hp)
      as [H|H]; rewrite H; cbn.
    + split; [constructor|]. intros x Hx. now injection Hx.
    + split; [constructor|discriminate].
Qed.

Lemma loop_session (fuel : nat) (start last : option Z) (entries : list Entry)
    (c : Client) (s : State W) :
  let o := for_entries (loop_body env settings fuel start last)
             entries (Some c) s in
  Forall (fun ev => login_free ev /\ sent_with c ev) (events o)
  /\ (forall x, result o = Ok x -> x = Some c).
Proof.
  cbv zeta. revert s; induction entries as [|e es IH]; intros s.
  - cbn. split; [constructor|]. intros x Hx. now injection Hx.
  - cbn [for_entries].
    destruct (body_session fuel start last e c s) as [He Hr].
    unfold bind.
    destruct (result (loop_body env settings fuel start last e (Some c) s))
      as [x| |]; cbn [events result].
    + rewrite (Hr x eq_refl). destruct (IH (final (loop_body env settings fuel
                                                    start last e (Some c) s)))
        as [He' Hr'].
      split; [|exact Hr']. apply Forall_app. now split.
    + split; [exact He|discriminate].
    + split; [exact He|discriminate].
Qed.

Lemma first_session_bind {A} (m : M W A) (f : A -> M W (option Client))
    (s : State W) :
  Forall chatter (events (m s)) ->
  (forall a s',
      exists c,
        Forall (sent_with c) (events (f a s'))
        /\ (logins (events (f a s')) <= 1)%nat
        /\ (forall x, result (f a s') = Ok x -> x = Some c)) ->
  exists c,
    Forall (sent_with c) (events (bind m f s))
    /\ (logins (events (bind m f s)) <= 1)%nat
    /\ (forall x, result (bind m f s) = Ok x -> x = Some c).
Proof.
  intros Hm Hf. unfold bind.
  destruct (result (m s)) as [a| |]; cbn [events result].
  - destruct (Hf a (final (m s))) as (c & He & Hl & Hr). exists c.
    pose proof (chatter_free c Hm) as Hc.
    split; [|split; [|exact Hr]].
    + apply Forall_app. split; [|exact He].
      eapply Forall_impl; [|exact Hc]. now intros ev [_ H].
    + rewrite logins_app, (@logins_free (events (m s))); [exact Hl|].
      eapply Forall_impl; [|exact Hc]. now intros ev [H _].
  - exists {| me := None |}. pose proof (chatter_free {| me := None |} Hm) as Hc.
    split; [|split; [|discriminate]].
    + eapply Forall_impl; [|exact Hc]. now intros ev [_ H].
    + rewrite logins_free; [lia|].
      eapply Forall_impl; [|exact Hc]. now intros ev [H _].
  - exists {| me := None |}. pose proof (chatter_free {| me := None |} Hm) as Hc.
    split; [|split; [|discriminate]].
    + eapply Forall_impl; [|exact Hc]. now intros ev [_ H].
    + rewrite logins_free; [lia|].
      eapply Forall_impl; [|exact Hc]. now intros ev [H _].
Qed.

(** The iteration that acquires the client. *)
Lemma body_first_session (fuel : nat) (start last : option Z) (entry : Entry)
    (s : State W) :
  passes env settings start last entry = true ->
  let o := loop_body env settings fuel start last entry None s in
  exists c,
    Forall (sent_with c) (events o)
    /\ (logins (events o) <= 1)%nat
    /\ (forall x, result o = Ok x -> x = Some c).
Proof.
  intros Hp. cbv zeta. rewrite body_passing by exact Hp.
  unfold publish_steps, print.
  apply first_session_bind; [repeat constructor|]. intros _ s1.
  apply first_session_bind; [constructor|]. intros message s2.
  apply first_session_bind; [apply chatter_select_image|]. intros image s3.
  apply first_session_bind; [repeat constructor|]. intros _ s4.
  destruct (quiet_get_client env settings fuel s4) as [Hq _].
  pose proof (get_client_logins fuel s4) as Hl.
  match goal with
  | |- context [bind ?m ?f s4] =>
      destruct (bind_cases m f s4) as [(c & Hc & Heq)|(Hno & Heq & Hres)]
  end.
  - exists c. rewrite Heq. cbn [events result].
    destruct (tail_session entry c message image
                (final (get_client env settings fuel s4))) as [He Hr].
    split; [|split; [|exact Hr]].
    + apply Forall_app. split; [now apply silent_sent_with|].
      eapply Forall_impl; [|exact He]. now intros ev [_ H].
    + rewrite logins_app.
      match goal with
      | |- (_ + logins ?tr <= 1)%nat =>
          rewrite (@logins_free tr); [lia|]
      end.
      eapply Forall_impl; [|exact He]. now intros ev [H _].
  - exists {| me := None |}. rewrite Heq.
    split; [now apply silent_sent_with|]. split; [exact Hl|].
    intros x Hx. now destruct (Hres x).
Qed.

Lemma loop_first_session (fuel : nat) (start last : option Z)
    (entries : list Entry) (s : State W) :
  let o := for_entries (loop_body env settings fuel start last)
             entries None s in
  exists c,
    Forall (sent_with c) (events o) /\ (logins (events o) <= 1)%nat.
Proof.
  cbv zeta. revert s; induction entries as [|e es IH]; intros s.
  - exists {| me := None |}. cbn. split; [constructor|lia].
  - cbn [for_entries].
    destruct (passes env settings start last e) eqn:Hp.
    + destruct (@body_first_session fuel start last e s Hp) as (c & He & Hl & Hr).
      unfold bind.
      destruct (result (loop_body env settings fuel start last e None s))
        as [x| |]; cbn [events]; [|now exists c|now exists c].
      rewrite (Hr x eq_refl). exists c.
      destruct (loop_session fuel start last es c
                  (final (loop_body env settings fuel start last e None s)))
        as [He' _].
      split.
      * apply Forall_app. split; [exact He|].
        eapply Forall_impl; [|exact He']. now intros ev [_ H].
      * rewrite logins_app, (@logins_free (events (for_entries _ es _ _)));
          [lia|].
        eapply Forall_impl; [|exact He']. now intros ev [H _].
    + destruct (body_rejects env settings fuel start last e None s Hp) as [H|H].
      * rewrite bind_ret_eq with (a := None) by exact H. apply IH.
      * rewrite bind_raise_eq with (e := ValueError) by exact H.
        exists {| me := None |}. cbn. split; [constructor|lia].
Qed.

(** When no entry passes the filters the loop does nothing. *)
Lemma loop_idle (fuel : nat) (start last : option Z) (entries : list Entry)
    (client : option Client) (s : State W) :
  Forall (fun e => passes env settings start last e = false) entries ->
  events (for_entries (loop_body env settings fuel start last) entries client s)
  = [].
Proof.
  intros Hall. revert s; induction Hall as [|e es He _ IH]; intros s.
  - reflexivity.
  - cbn [for_entries].
    destruct (body_rejects env settings fuel start last e client s He) as [H|H].
    + rewrite bind_ret_eq with (a := client) by exact H. apply IH.
    + now rewrite bind_raise_eq with (e := ValueError) by exact H.
Qed.

(** X12 -- One session per run, acquired on first need: every run makes
    at most one login attempt, all its publish calls are made with one
    and the same client, and a run in which no fetched entry passes the
    filters makes no login attempt and no fetch at all. *)
Theorem one_session_per_run (fuel : nat) (s : State W) :
  let o := main env settings fuel s in
  (logins (events o) <= 1)%nat
  /\ (exists c, Forall (sent_with c) (events o))
  /\ ((forall start last,
          start_of_run env settings = Ok start ->
          cursor_of_run env settings s = Ok last ->
          Forall (fun e => passes env settings start last e = false)
            (fetched env settings s)) ->
      events o = [EvPrint ("Fetching " ++ FEED_URL settings);
                  EvPrint "all done with work"]
      \/ events o = [EvPrint ("Fetching " ++ FEED_URL settings)]).
Proof.
  cbv zeta.
  destruct (main_dichotomy env settings s) as [(start & last & Hs & Hl)|Hno].
  - rewrite (main_eq fuel s Hs Hl). cbn [events].
    destruct (loop_first_session fuel start last (rev (fetched env settings s))
                (at_loop env settings s)) as (c & He & Hlog).
    fold (the_loop env settings fuel start last s) in He, Hlog.
    assert (Htail : Forall chatter
                      match result (the_loop env settings fuel start last s) with
                      | Ok _ => [EvPrint "all done with work"]
                      | _ => []
                      end)
      by (destruct (result (the_loop env settings fuel start last s));
          repeat constructor).
    pose proof (chatter_free c Htail) as Htail'.
    split; [|split].
    + change (EvPrint ("Fetching " ++ FEED_URL settings)
                :: events (the_loop env settings fuel start last s) ++ ?x)
        with ([EvPrint ("Fetching " ++ FEED_URL settings)]
                ++ events (the_loop env settings fuel start last s) ++ x).
      rewrite !logins_app.
      rewrite (@logins_free (match result _ with Ok _ => _ | _ => _ end)).
      * cbn. lia.
      * eapply Forall_impl; [|exact Htail']. now intros ev [H _].
    + exists c. constructor; [exact I|]. apply Forall_app. split; [exact He|].
      eapply Forall_impl; [|exact Htail']. now intros ev [_ H].
    + intros Hall. specialize (Hall start last Hs Hl).
      assert (Hidle : events (the_loop env settings fuel start last s) = []).
      { unfold the_loop. apply loop_idle. apply Forall_forall.
        intros e He'. rewrite Forall_forall in Hall. apply Hall.
        now apply in_rev. }
      rewrite Hidle.
      destruct (result (the_loop env settings fuel start last s)); auto.
  - rewrite (main_eq_early fuel s Hno). split; [cbn; lia|].
    split; [exists {| me := None |}; repeat constructor|]. auto.
Qed.

(** ** Two runs in a row (lines 100-162) *)

Lemma loop_saves_complete (fuel : nat) (start last : option Z)
    (entries : list Entry) (client : option Client) (s : State W)
    (x : option Client) :
  result (for_entries (loop_body env settings fuel start last) entries client s)
  = Ok x ->
  saves (events (for_entries (loop_body env settings fuel start last)
                   entries client s))
  = map published (filter (passes env settings start last) entries).
Proof.
  intros Hok.
  destruct (loop_successes fuel start last entries client s)
    as (Hsaves & failed & Hposted & Hfailed).
  destruct (loop_posted env settings fuel start last entries client s)
    as (rest & Heq & Hrest).
  rewrite (Hrest x Hok), app_nil_r in Heq.
  destruct Hfailed as [->|(e & _ & Hraise)]; [|congruence].
  rewrite app_nil_r in Hposted. now rewrite Hsaves, <- Hposted, Heq.
Qed.

Lemma list_end {A} (l : list A) : l = [] \/ exists l' a, l = l' ++ [a].
Proof.
  induction l as [|x l IH] using rev_ind; [now left|right]. now exists l, x.
Qed.

(** X13 -- A second run on the same feed publishes nothing.  After a
    run in which nothing raised, on a feed listed newest first whose
    [published] strings are not empty, carry no white space at their
    ends and hold no carriage return (so that each is read from the
    cursor file as it was written), a run started from the state the first one left, and fetching
    the same entries, passes no entry through its filters: it publishes
    nothing, writes nothing, and leaves the cursor file as the first run
    left it. *)
Theorem second_run_posts_nothing (fuel : nat) (s : State W)
    (start cursor : option Z) :
  start_of_run env settings = Ok start ->
  cursor_of_run env settings s = Ok cursor ->
  cooperative env settings (fetched env settings s) ->
  fuel <> O ->
  newest_first env settings (fetched env settings s) ->
  Forall (fun e => PyStr.trimmed (published e) = true
                   /\ PyStr.has_cr (published e) = false
                   /\ published e <> EmptyString)
    (fetched env settings s) ->
  let s' := final (main env settings fuel s) in
  fetched env settings s' = fetched env settings s ->
  posted (events (main env settings fuel s')) = []
  /\ saves (events (main env settings fuel s')) = []
  /\ last_posted (final (main env settings fuel s')) = last_posted s'.
Proof.
  intros Hs Hl Hco Hfuel Hnewest Hclean s' Hsame.
  (* the first run *)
  assert (Hfile : last_posted s'
                  = List.last (map Some
                            (map published
                               (filter (passes env settings start cursor)
                                  (rev (fetched env settings s)))))
                      (last_posted s)).
  { unfold s'. rewrite main_file. f_equal. f_equal.
    rewrite (main_eq fuel s Hs Hl). cbn [events].
    destruct (@loop_returns _ env settings fuel start cursor
                (rev (fetched env settings s)) None (at_loop env settings s)
                Hfuel (@cooperative_rev _ env settings _ Hco))
      as [c Hc].
    fold (the_loop env settings fuel start cursor s) in Hc. rewrite Hc.
    change (EvPrint ("Fetching " ++ FEED_URL settings)
              :: events (the_loop env settings fuel start cursor s)
              ++ [EvPrint "all done with work"])
      with ([EvPrint ("Fetching " ++ FEED_URL settings)]
              ++ events (the_loop env settings fuel start cursor s)
              ++ [EvPrint "all done with work"]).
    rewrite !saves_app. cbn [saves flat_map app]. rewrite app_nil_r.
    exact (loop_saves_complete fuel start cursor _ None _ Hc). }
  pose proof (@passing_sorted _ env settings start cursor _ Hnewest) as Hsorted.
  (* the cursor of the second run lets no entry through *)
  assert (Hnone : exists cursor',
             cursor_of_run env settings s' = Ok cursor'
             /\ Forall (fun e => passes env settings start cursor' e = false)
                  (fetched env settings s')).
  { rewrite Hsame.
    destruct (list_end (filter (passes env settings start cursor)
                          (rev (fetched env settings s))))
      as [Hempty|(l' & em & Hlast)].
    - exists cursor. rewrite Hempty in Hfile. cbn [map List.last] in Hfile.
      split.
      + unfold cursor_of_run in *. now rewrite Hfile.
      + apply Forall_forall. intros e He.
        destruct (passes env settings start cursor e) eqn:Hp; [|reflexivity].
        assert (Hin : In e (filter (passes env settings start cursor)
                              (rev (fetched env settings s))))
          by (apply filter_In; split; [now apply in_rev in He|exact Hp]).
        rewrite Hempty in Hin. destruct Hin.
    - assert (Hem : In em (filter (passes env settings start cursor)
                             (rev (fetched env settings s))))
        by (rewrite Hlast; apply in_or_app; right; now left).
      apply filter_In in Hem as [Hem_in Hem_p].
      apply in_rev in Hem_in.
      rewrite Forall_forall in Hclean.
      destruct (Hclean em Hem_in) as (Htrim & Hcr & Hne).
      apply (passes_spec env settings) in Hem_p
        as (Hem_sk & tm & Htm & Hlast_tm & Hstart_tm).
      rewrite Hlast, !map_app in Hfile. cbn [map] in Hfile.
      rewrite last_last in Hfile.
      exists (Some tm). split.
      + unfold cursor_of_run. rewrite Hfile. cbn [loaded option_map].
        rewrite (PyStrFacts.universal_newlines_plain _ Hcr).
        rewrite (PyStrFacts.strip_trimmed _ Htrim).
        unfold optional_date, PyStr.truthy, parse_date.
        apply String.eqb_neq in Hne. rewrite Hne. cbn [negb].
        unfold stamp in Htm. now rewrite Htm.
      + apply Forall_forall. intros e He.
        destruct (passes env settings start (Some tm) e) eqn:Hp; [|reflexivity].
        exfalso.
        apply (passes_spec env settings) in Hp as (Hsk & t & Ht & Hafter & Hst).
        specialize (Hafter tm eq_refl).
        assert (Hp1 : passes env settings start cursor e = true).
        { apply passes_spec. split; [exact Hsk|]. exists t.
          split; [exact Ht|]. split; [|exact Hst].
          intros T HT. specialize (Hlast_tm T HT). lia. }
        assert (Hin : In e (filter (passes env settings start cursor)
                              (rev (fetched env settings s))))
          by (apply filter_In; split; [now apply in_rev in He|exact Hp1]).
        rewrite Hlast in Hin, Hsorted.
        apply sorted_app in Hsorted as (_ & _ & Hbefore).
        apply in_app_or in Hin as [Hin|[<-|[]]].
        * specialize (Hbefore e em Hin (or_introl eq_refl)).
          unfold earlier in Hbefore. rewrite Ht, Htm in Hbefore. lia.
        * rewrite Htm in Ht. injection Ht as <-. lia. }
  destruct Hnone as (cursor' & Hl' & Hnone).
  (* the second run *)
  assert (Hidle : events (the_loop env settings fuel start cursor' s') = []).
  { unfold the_loop. apply loop_idle. apply Forall_forall.
    intros e He. rewrite Forall_forall in Hnone. apply Hnone.
    now apply in_rev. }
  assert (Hquiet : posted (events (main env settings fuel s')) = []
                   /\ saves (events (main env settings fuel s')) = []).
  { rewrite (main_eq fuel s' Hs Hl'). cbn [events]. rewrite Hidle.
    destruct (result (the_loop env settings fuel start cursor' s')); now cbn. }
  destruct Hquiet as [Hposted Hsaves].
  split; [exact Hposted|]. split; [exact Hsaves|].
  now rewrite main_file, Hsaves.
Qed.

(** X14 -- A first run posts the whole feed: with no start date
    configured and no cursor file, a run in which nothing raises
    publishes every fetched entry that does not carry the skip tag, in
    reverse feed order. *)
Theorem first_run_posts_whole_feed (fuel : nat) (s : State W) :
  START_POST_DATE settings = EmptyString ->
  last_posted s = None ->
  cooperative env settings (fetched env settings s) ->
  fuel <> O ->
  result (main env settings fuel s) = Ok tt
  /\ posted (events (main env settings fuel s))
     = filter (fun e => negb (skipped settings e)) (rev (fetched env settings s)).
Proof.
  intros Hstart Hfile Hco Hfuel.
  assert (Hs : start_of_run env settings = Ok None)
    by (unfold start_of_run, optional_date; now rewrite Hstart).
  assert (Hl : cursor_of_run env settings s = Ok None)
    by (unfold cursor_of_run; now rewrite Hfile).
  pose proof (@main_returns _ env settings fuel s None None Hs Hl Hco Hfuel)
    as Hok.
  destruct (main_posted env settings fuel s Hs Hl) as (rest & Heq & Hrest).
  rewrite (Hrest Hok), app_nil_r in Heq.
  split; [exact Hok|]. rewrite <- Heq. apply filter_ext_in.
  intros e He. apply in_rev in He. unfold passes.
  destruct (skipped settings e) eqn:Hsk; [reflexivity|].
  pose proof (dates_parse Hco e He Hsk) as Hdate.
  destruct (stamp env settings (published e)); [reflexivity|congruence].
Qed.

End Further.

Lemma unparsable_start_date_witness :
  main (Sample.env [Sample.a] Sample.always) (Sample.since "soon") 1
    (Sample.start None [])
  = {| events := [EvPrint "Fetching http://x/feed"];
       final := Sample.start None [];
       result := Raise ValueError |}.
Proof.
  exact (@unparsable_start_date _ (Sample.env [Sample.a] Sample.always)
           (Sample.since "soon") 1 (Sample.start None []) eq_refl eq_refl).
Defined.

Lemma unparsable_cursor_witness :
  main (Sample.env [Sample.a] Sample.always) Sample.settings 1
    (Sample.start (Some "not a date") [])
  = {| events := [EvPrint "Fetching http://x/feed"];
       final := Sample.start (Some "not a date") [];
       result := Raise ValueError |}.
Proof.
  exact (@unparsable_cursor _ (Sample.env [Sample.a] Sample.always)
           Sample.settings 1 (Sample.start (Some "not a date") [])
           "not a date" None eq_refl eq_refl eq_refl eq_refl).
Defined.

Lemma blank_cursor_witness :
  let o := main (Sample.steady [Sample.c; Sample.b; Sample.a]) Sample.settings 1
             {| world := tt; last_posted := Some "   " |} in
  result o = Ok tt /\ posted (events o) = [Sample.a; Sample.b; Sample.c].
Proof.
  destruct (@blank_cursor _ (Sample.steady [Sample.c; Sample.b; Sample.a])
              Sample.settings 1 {| world := tt; last_posted := Some "   " |}
              "   " None eq_refl eq_refl eq_refl steady_cooperative
              (@Nat.neq_succ_0 0))
    as (_ & Hok & Hposted).
  split; [exact Hok|]. rewrite Hposted. reflexivity.
Defined.

Lemma enclosures_shadow_media_content_witness :
  select_image (Sample.env [] Sample.always) Sample.shadowed
    (Sample.start None [])
  = ret None (Sample.start None []).
Proof.
  exact (proj2 (proj2 (@enclosures_shadow_media_content _
                         (Sample.env [] Sample.always) Sample.shadowed []
                         eq_refl))
           eq_refl (Sample.start None [])).
Defined.

Lemma transport_error_stops_iteration_witness :
  let o := loop_body (Sample.offline [Sample.pictured]) Sample.settings 1
             None None Sample.pictured None
             {| world := tt; last_posted := None |} in
  result o = Raise TransportError
  /\ fetches (events o) = ["http://x/a.png"]
  /\ sends (events o) = []
  /\ saves (events o) = []
  /\ last_posted (final o) = None.
Proof.
  exact (@transport_error_stops_iteration _ (Sample.offline [Sample.pictured])
           Sample.settings 1 None None Sample.pictured
           {| url := Some "http://x/a.png" |}
           [{| url := Some "http://x/b.jpg" |}] "http://x/a.png" None
           {| world := tt; last_posted := None |}
           eq_refl eq_refl eq_refl eq_refl eq_refl).
Defined.

Lemma unparsable_entry_blocks_newer_witness :
  let o := main (Sample.env [Sample.c; Sample.undated; Sample.a] Sample.always)
             Sample.settings 1 (Sample.start None []) in
  result o <> Ok tt /\ (forall e, In e (posted (events o)) -> In e [Sample.a]).
Proof.
  exact (@unparsable_entry_blocks_newer _
           (Sample.env [Sample.c; Sample.undated; Sample.a] Sample.always)
           Sample.settings 1 (Sample.start None [])
           [Sample.c] [Sample.a] Sample.undated eq_refl eq_refl eq_refl).
Defined.

Lemma image_is_attached_witness :
  exists message,
    truncate_text Sample.settings (title Sample.pictured) (link Sample.pictured) 300
    = Ok message
    /\ calls (events (loop_body (Sample.steady [Sample.pictured]) Sample.settings 1
                        None None Sample.pictured None
                        {| world := tt; last_posted := None |}))
       = [if PyStr.truthy "PNG"
          then send_image message "PNG" "Image coming from the Fediverse"
          else send_post message].
Proof.
  exact (@image_is_attached _ (Sample.steady [Sample.pictured]) Sample.settings 1
           None None Sample.pictured
           {| url := Some "http://x/a.png" |}
           [{| url := Some "http://x/b.jpg" |}] "http://x/a.png" None
           {| world := tt; last_posted := None |}
           {| status_code := 200; content := "PNG" |}
           eq_refl eq_refl eq_refl eq_refl eq_refl eq_refl (@Nat.neq_succ_0 0)
           (fun h p w (H : LoginOk = LoginOtherError) =>
              eq_ind LoginOk
                (fun r => match r with LoginOk => True | _ => False end)
                I LoginOtherError H)).
Defined.

Lemma one_session_per_run_witness :
  let o := main (Sample.env [Sample.tagged] Sample.always) Sample.settings 1
             (Sample.start None []) in
  events o = [EvPrint "Fetching http://x/feed"; EvPrint "all done with work"]
  \/ events o = [EvPrint "Fetching http://x/feed"].
Proof.
  apply (proj2 (proj2 (@one_session_per_run _
                         (Sample.env [Sample.tagged] Sample.always)
                         Sample.settings 1 (Sample.start None [])))).
  intros start last Hs Hl. repeat constructor.
Defined.

Lemma steady_newest_first :
  newest_first (Sample.steady [Sample.c; Sample.b; Sample.a]) Sample.settings
    [Sample.c; Sample.b; Sample.a].
Proof. repeat constructor. Qed.

Lemma second_run_posts_nothing_witness :
  let env := Sample.steady [Sample.c; Sample.b; Sample.a] in
  let s' := final (main env Sample.settings 1
                     {| world := tt; last_posted := None |}) in
  posted (events (main env Sample.settings 1 s')) = []
  /\ saves (events (main env Sample.settings 1 s')) = []
  /\ last_posted (final (main env Sample.settings 1 s')) = last_posted s'.
Proof.
  apply (@second_run_posts_nothing _
           (Sample.steady [Sample.c; Sample.b; Sample.a]) Sample.settings 1
           {| world := tt; last_posted := None |} None None
           eq_refl eq_refl steady_cooperative (@Nat.neq_succ_0 0)
           steady_newest_first).
  - repeat constructor; discriminate.
  - reflexivity.
Defined.

Lemma first_run_posts_whole_feed_witness :
  let o := main (Sample.steady [Sample.c; Sample.b; Sample.a]) Sample.settings 1
             {| world := tt; last_posted := None |} in
  result o = Ok tt /\ posted (events o) = [Sample.a; Sample.b; Sample.c].
Proof.
  destruct (@first_run_posts_whole_feed _
              (Sample.steady [Sample.c; Sample.b; Sample.a]) Sample.settings 1
              {| world := tt; last_posted := None |}
              eq_refl eq_refl steady_cooperative (@Nat.neq_succ_0 0))
    as (Hok & Hposted).
  split; [exact Hok|]. rewrite Hposted. reflexivity.
Defined.

